(** * locate_vat.py: locating the country of a list of VAT numbers

    A shallow embedding of [src/locate_vat.py].

    Text is Python's [str]: a sequence of Unicode code points.  What
    [str.upper] and the classes [\d] and [\w] of [re] do to a code point
    is read from the Unicode database, which is not part of the program:
    the three tables are taken as the parameter [unicode], with the facts
    about them that the proofs use.  Code that raises returns [Raise];
    code that talks to the outside world (the two files, the VIES
    request, the axesor HTTP GET, the clock of the circuit breaker, the
    standard output) runs in a state-and-exception monad over an explicit
    [world], the replies of the outside world being given by an [env] of
    oracles. *)

From Stdlib Require Import List Bool Arith NArith ZArith Lia.
From Stdlib.Strings Require Import Byte.
Import ListNotations.
Local Open Scope list_scope.

Set Implicit Arguments.

(** ** Characters and text *)

(** A character is a code point. *)
Definition char : Type := N.
Definition text : Type := list char.

(** Text written between double quotes stands for the code points of its
    bytes. *)
Inductive literal : Type :=
| lnil
| lcons (c : N) (l : literal).

Fixpoint literal_of_bytes (l : list Byte.byte) : literal :=
  match l with
  | [] => lnil
  | b :: l' => lcons (Byte.to_N b) (literal_of_bytes l')
  end.

Fixpoint bytes_of_literal (s : literal) : option (list Byte.byte) :=
  match s with
  | lnil => Some []
  | lcons c s' =>
      match Byte.of_N c, bytes_of_literal s' with
      | Some b, Some l => Some (b :: l)
      | _, _ => None
      end
  end.

Declare Scope text_scope.
Delimit Scope text_scope with text.
Bind Scope text_scope with text.
#[warnings="-via-type-mismatch,-via-type-remapping"]
String Notation text literal_of_bytes bytes_of_literal
  (via literal mapping [[nil] => lnil, [cons] => lcons]) : text_scope.
Local Open Scope text_scope.

Definition LF : char := 10%N.
Definition CR : char := 13%N.
Definition SP : char := 32%N.
Definition STAR : char := 42%N.
Definition PLUS : char := 43%N.
Definition SLASH : char := 47%N.
Definition UNDERSCORE : char := 95%N.

(** The one-character text of a newline, Python's ['\n']. *)
Definition NL : text := [LF].

Definition between (lo hi : N) (c : char) : bool :=
  ((lo <=? c) && (c <=? hi))%N.

Definition is_ascii (c : char) : bool := (c <? 128)%N.

(** The ASCII digits, letters and word characters, and the upper case of
    an ASCII character. *)
Definition is_digit (c : char) : bool := between 48 57 c.
Definition is_lower (c : char) : bool := between 97 122 c.
Definition is_upper (c : char) : bool := between 65 90 c.

Definition is_word (c : char) : bool :=
  is_digit c || is_lower c || is_upper c || N.eqb c UNDERSCORE.

Definition upper_char (c : char) : char :=
  if is_lower c then (c - 32)%N else c.

(** The tables of the Unicode database that the program reads through
    [str.upper] and through [re]: which code points are decimal digits
    ([\d], the category Nd), which are word characters ([\w]: what
    [str.isalnum] accepts, and the underscore), and the upper case of a
    code point, which can be several code points (that of U+00DF is
    [SS]).  On ASCII they are the familiar ones; taking the upper case
    twice is taking it once; no upper case holds a line feed, a carriage
    return, a space or a star that was not there, nor a lower-case ASCII
    letter, and none is empty. *)
Class unicode : Type := {
  decimal : char -> bool;
  wordchar : char -> bool;
  uppercase : char -> text;
  decimal_ascii : forall c, is_ascii c = true -> decimal c = is_digit c;
  wordchar_ascii : forall c, is_ascii c = true -> wordchar c = is_word c;
  uppercase_ascii :
    forall c, is_ascii c = true -> uppercase c = [upper_char c];
  uppercase_idem :
    forall c, flat_map uppercase (uppercase c) = uppercase c;
  uppercase_fresh :
    forall c x, In x (uppercase c) ->
      x = LF \/ x = CR \/ x = SP \/ x = STAR -> c = x;
  uppercase_no_lower :
    forall c x, In x (uppercase c) -> is_lower x = false;
  uppercase_not_empty : forall c, uppercase c <> [] }.

Arguments uppercase_fresh {_} c x _ _.

(** Case analysis on the comparisons of a goal about ASCII characters. *)
Ltac no_if t :=
  lazymatch t with
  | context [if _ then _ else _] => fail
  | _ => idtac
  end.

Ltac ascii_cases :=
  unfold upper_char, is_word in *;
  unfold is_digit, is_lower, is_upper, is_ascii in *;
  unfold between, LF, CR, SP, STAR, PLUS, SLASH, UNDERSCORE in *;
  repeat (match goal with
    | |- context [(?a <=? ?b)%N] =>
        no_if a; no_if b; destruct (N.leb_spec a b)
    | |- context [(?a <? ?b)%N] =>
        no_if a; no_if b; destruct (N.ltb_spec a b)
    | |- context [(?a =? ?b)%N] =>
        no_if a; no_if b; destruct (N.eqb_spec a b)
    | H : context [(?a <=? ?b)%N] |- _ =>
        no_if a; no_if b; destruct (N.leb_spec a b)
    | H : context [(?a <? ?b)%N] |- _ =>
        no_if a; no_if b; destruct (N.ltb_spec a b)
    | H : context [(?a =? ?b)%N] |- _ =>
        no_if a; no_if b; destruct (N.eqb_spec a b)
    end; cbn [andb orb negb] in *);
  try reflexivity; try discriminate; try lia.

(** The tables that know ASCII only: no other code point is a digit or a
    word character, or has an upper case of its own.  They show that the
    facts asked of the tables can be had together, and are the tables of
    the examples. *)
Definition plain : unicode.
Proof.
  refine (@Build_unicode is_digit is_word (fun c => [upper_char c])
            _ _ _ _ _ _ _); simpl.
  - reflexivity.
  - reflexivity.
  - reflexivity.
  - intros c. f_equal. ascii_cases.
  - intros c x [<- | []] Hx. destruct Hx as [Hx | [Hx | [Hx | Hx]]];
      revert Hx; ascii_cases.
  - intros c x [<- | []]. ascii_cases.
  - discriminate.
Defined.

(** [s == t] *)
Fixpoint text_eqb (s t : text) : bool :=
  match s, t with
  | [], [] => true
  | a :: s', b :: t' => N.eqb a b && text_eqb s' t'
  | _, _ => false
  end.

(** [t.startswith(s)] *)
Fixpoint prefix (s t : text) : bool :=
  match s, t with
  | [], _ => true
  | a :: s', b :: t' => N.eqb a b && prefix s' t'
  | _, _ => false
  end.

(** [s.replace(c, '')] for a one-character [c]: every occurrence goes. *)
Fixpoint remove_char (c : char) (s : text) : text :=
  match s with
  | "" => ""
  | a :: s' =>
      if N.eqb a c then remove_char c s' else a :: remove_char c s'
  end.

(** [s.rstrip(c)] for a one-character [c]: all trailing occurrences go. *)
Fixpoint rstrip (c : char) (s : text) : text :=
  match s with
  | "" => ""
  | a :: s' =>
      match rstrip c s' with
      | "" => if N.eqb a c then "" else [a]
      | r => a :: r
      end
  end.

(** [c in s] *)
Fixpoint has (c : char) (s : text) : bool :=
  match s with
  | "" => false
  | a :: s' => N.eqb a c || has c s'
  end.

(** [s.endswith(c)] for a one-character [c]. *)
Fixpoint ends_with (c : char) (s : text) : bool :=
  match s with
  | "" => false
  | [a] => N.eqb a c
  | _ :: s' => ends_with c s'
  end.

Fixpoint all_lf (s : text) : bool :=
  match s with
  | "" => true
  | a :: s' => N.eqb a LF && all_lf s'
  end.

(** Every newline of [s] stands at its end: no newline is followed by
    another character.  [readlines] yields only such texts. *)
Fixpoint lf_only_trailing (s : text) : bool :=
  match s with
  | "" => true
  | a :: s' =>
      if N.eqb a LF then all_lf s' else lf_only_trailing s'
  end.

(** Every code point of [s] is an ASCII one. *)
Definition ascii_text (s : text) : bool := forallb is_ascii s.

Section Text.

Context {U : unicode}.

(** [s.upper()]: the upper cases of the code points, in a row. *)
Definition upper (s : text) : text := flat_map uppercase s.

(** ** normalize (lines 17-18) *)

Definition normalize (vat_number : text) : text :=
  upper (remove_char STAR (remove_char SP (rstrip LF vat_number))).

End Text.

(** ** Reading the source file

    [open(source, 'r')] is a text stream with universal newlines: a
    carriage return, alone or followed by a line feed, is read as one
    line feed.  [readlines] then cuts the text after each line feed,
    keeping it. *)

Fixpoint universal_newlines (s : text) : text :=
  match s with
  | "" => ""
  | a :: s' =>
      if N.eqb a CR then
        match s' with
        | b :: s'' =>
            if N.eqb b LF then (LF :: (universal_newlines s''))
            else (LF :: (universal_newlines s'))
        | "" => [LF]
        end
      else (a :: (universal_newlines s'))
  end.

(** [cur] is the part of the current line read so far. *)
Fixpoint split_lines (cur : text) (s : text) : list text :=
  match s with
  | "" => match cur with "" => [] | _ => [cur] end
  | a :: s' =>
      if N.eqb a LF
      then (cur ++ NL) :: split_lines "" s'
      else split_lines (cur ++ [a]) s'
  end.

Definition readlines (content : text) : list text :=
  split_lines "" (universal_newlines content).

(** The file [source], as [open(source, 'r')] and [readlines] find it:
    [open] raises (the file is not there, may not be read, is a
    directory), or [readlines] raises (the bytes of the file are not text
    in the encoding: [UnicodeDecodeError]), or the file holds a text. *)
Inductive source_file : Type :=
| Unreadable (name : text)
| Undecodable (name : text)
| Readable (content : text).

(** The file [output], as [open(output, 'w')] finds it: [open] raises
    (the path is a directory, may not be written), or the file is opened
    and emptied. *)
Inductive output_file : Type :=
| Unwritable (name : text)
| Writable.

(** ** Exceptions and results

    [HTTPError] is the class of line 9.  [KeyError] is what a dict lookup
    raises on a missing key.  [CircuitBreakerError] is what the circuit
    breaker raises while it is open.  [Foreign] stands for every
    exception raised outside this file, inside the libraries called
    (pyVies, requests) or by [open] and [readlines]: the class
    [HTTPError] is declared in this file, so none of them is an instance
    of it. *)

Inductive exn : Type :=
| HTTPError (msg : text)
| KeyError (key : text)
| CircuitBreakerError
| Foreign (name : text).

Inductive result (A : Type) : Type :=
| Ok (a : A)
| Raise (e : exn).

Arguments Ok {A} a.
Arguments Raise {A} e.

(** ** Regular expressions, as the module [re] runs them

    A pattern is kept as the tree [re.compile] parses it to.  The
    matcher is a backtracking one: [run r p] lists, in the order the
    engine tries them, the positions at which a match of [r] begun at
    [p] can end.  A position is the offset reached and the text left. *)

Inductive item : Type :=
| Lit (c : char)
| Digit
| Word.

Inductive regex : Type :=
| Eps
| One (cs : list item)
| Bol
| Eol
| Cat (r1 r2 : regex)
| Alt (r1 r2 : regex)
| Rep (r : regex) (lo hi : nat).

Section Engine.

Context {U : unicode}.

Definition item_mem (c : char) (i : item) : bool :=
  match i with
  | Lit a => N.eqb c a
  | Digit => decimal c
  | Word => wordchar c
  end.

Definition pos : Type := (nat * text)%type.

(** [^] holds at the start of the text. *)
Definition at_bol (p : pos) : bool := Nat.eqb (fst p) 0.

(** [$] holds at the end of the text and just before a newline that
    ends the text. *)
Definition at_eol (rest : text) : bool :=
  match rest with
  | "" => true
  | [c] => N.eqb c LF
  | _ => false
  end.

(** A greedy counted repeat [{lo,hi}]: one more round is tried before
    stopping is. *)
Fixpoint iter (f : pos -> list pos) (lo hi : nat) (p : pos) : list pos :=
  match hi with
  | 0 => if Nat.eqb lo 0 then [p] else []
  | S h =>
      flat_map (iter f (pred lo) h) (f p)
        ++ (if Nat.eqb lo 0 then [p] else [])
  end.

(** The engine, for a given reading [eol] of [$] (a function of the text
    left). *)
Fixpoint run_with (eol : text -> bool) (r : regex) (p : pos) : list pos :=
  match r with
  | Eps => [p]
  | One cs =>
      match snd p with
      | c :: s' =>
          if existsb (item_mem c) cs then [(S (fst p), s')] else []
      | "" => []
      end
  | Bol => if at_bol p then [p] else []
  | Eol => if eol (snd p) then [p] else []
  | Cat a b => flat_map (run_with eol b) (run_with eol a p)
  | Alt a b => run_with eol a p ++ run_with eol b p
  | Rep a lo hi => iter (run_with eol a) lo hi p
  end.

Definition run : regex -> pos -> list pos := run_with at_eol.

(** [pattern.match(s)]: the match found first, of which the offset of its
    end is kept, or [None]. *)
Definition re_match (r : regex) (s : text) : option nat :=
  match run r (0, s) with
  | [] => None
  | p :: _ => Some (fst p)
  end.

End Engine.

(** Truth value of what [match] returns. *)
Definition truthy (m : option nat) : bool :=
  match m with Some _ => true | None => false end.

(** Shorthands for writing patterns. *)
Fixpoint lit (s : text) : regex :=
  match s with
  | "" => Eps
  | [c] => One [Lit c]
  | c :: s' => Cat (One [Lit c]) (lit s')
  end.

Fixpoint seq (rs : list regex) : regex :=
  match rs with
  | [] => Eps
  | [r] => r
  | r :: rs' => Cat r (seq rs')
  end.

Definition digit : regex := One [Digit].
Definition word : regex := One [Word].
Definition times (r : regex) (n : nat) : regex := Rep r n n.

(** ** Validator (lines 21-66) *)

Fixpoint lookup {A : Type} (k : text) (l : list (text * A)) : option A :=
  match l with
  | [] => None
  | (k', v) :: l' => if text_eqb k k' then Some v else lookup k l'
  end.

Module Validator.

Definition vat_number_regexps : list (text * regex) :=
  [ (* ^ATU\d{8}$ *)
    ("AT", seq [Bol; lit "ATU"; times digit 8; Eol]);
    (* ^BE0\d{9}$ *)
    ("BE", seq [Bol; lit "BE0"; times digit 9; Eol]);
    (* ^BG\d{9,10}$ *)
    ("BG", seq [Bol; lit "BG"; Rep digit 9 10; Eol]);
    (* ^CY\d{8}\w$ *)
    ("CY", seq [Bol; lit "CY"; times digit 8; word; Eol]);
    (* ^CZ\d{8,10}$ *)
    ("CZ", seq [Bol; lit "CZ"; Rep digit 8 10; Eol]);
    (* ^DE\d{9}$ *)
    ("DE", seq [Bol; lit "DE"; times digit 9; Eol]);
    (* ^DK\d{2} \d{2} \d{2} \d{2}$ *)
    ("DK", seq [Bol; lit "DK"; times digit 2; lit " "; times digit 2; lit " ";
                times digit 2; lit " "; times digit 2; Eol]);
    (* ^EE\d{9}$ *)
    ("EE", seq [Bol; lit "EE"; times digit 9; Eol]);
    (* ^EL\d{9}$ *)
    ("EL", seq [Bol; lit "EL"; times digit 9; Eol]);
    (* ^ES[\w\d]\d{7}[\w\d]$ *)
    ("ES", seq [Bol; lit "ES"; One [Word; Digit]; times digit 7;
                One [Word; Digit]; Eol]);
    (* ^FI\d{8}$ *)
    ("FI", seq [Bol; lit "FI"; times digit 8; Eol]);
    (* ^FR[\w\d]{2} \d{9}$ *)
    ("FR", seq [Bol; lit "FR"; times (One [Word; Digit]) 2; lit " ";
                times digit 9; Eol]);
    (* ^GB((\d{3} \d{4} \d{2})|(\d{3} \d{4} \d{2} \d{3})|((GD|HA)\d{3}))$ *)
    ("GB", seq [Bol; lit "GB";
                Alt (seq [times digit 3; lit " "; times digit 4; lit " "; times digit 2])
                  (Alt (seq [times digit 3; lit " "; times digit 4; lit " ";
                             times digit 2; lit " "; times digit 3])
                       (seq [Alt (lit "GD") (lit "HA"); times digit 3]));
                Eol]);
    (* ^HR\d{11}$ *)
    ("HR", seq [Bol; lit "HR"; times digit 11; Eol]);
    (* ^HU\d{8}$ *)
    ("HU", seq [Bol; lit "HU"; times digit 8; Eol]);
    (* ^IE((\d[\d\w\+\*]\d{5}\w)|(\d{7}WI))$ *)
    ("IE", seq [Bol; lit "IE";
                Alt (seq [digit; One [Digit; Word; Lit PLUS; Lit STAR];
                          times digit 5; word])
                    (seq [times digit 7; lit "WI"]);
                Eol]);
    (* ^IT\d{11}$ *)
    ("IT", seq [Bol; lit "IT"; times digit 11; Eol]);
    (* ^LT\d{9,12}$ *)
    ("LT", seq [Bol; lit "LT"; Rep digit 9 12; Eol]);
    (* ^LU\d{8}$ *)
    ("LU", seq [Bol; lit "LU"; times digit 8; Eol]);
    (* ^LV\d{11}$ *)
    ("LV", seq [Bol; lit "LV"; times digit 11; Eol]);
    (* ^MT\d{8}$ *)
    ("MT", seq [Bol; lit "MT"; times digit 8; Eol]);
    (* ^NL\d{9}B\d{2}$ *)
    ("NL", seq [Bol; lit "NL"; times digit 9; lit "B"; times digit 2; Eol]);
    (* ^PL\d{10}$ *)
    ("PL", seq [Bol; lit "PL"; times digit 10; Eol]);
    (* ^PT\d{9}$ *)
    ("PT", seq [Bol; lit "PT"; times digit 9; Eol]);
    (* ^RO\d{2,10}$ *)
    ("RO", seq [Bol; lit "RO"; Rep digit 2 10; Eol]);
    (* ^SE\d{12}$ *)
    ("SE", seq [Bol; lit "SE"; times digit 12; Eol]);
    (* ^SI\d{8}$ *)
    ("SI", seq [Bol; lit "SI"; times digit 8; Eol]);
    (* ^SK\d{10}$ *)
    ("SK", seq [Bol; lit "SK"; times digit 10; Eol]) ].

Section Validate.

Context {U : unicode}.

(** [vat_number_regexps[vat_country_code].match(vat_number)] *)
Definition validate (vat_number vat_country_code : text)
  : result (option nat) :=
  match lookup vat_country_code vat_number_regexps with
  | None => Raise (KeyError vat_country_code)
  | Some r => Ok (re_match r vat_number)
  end.

End Validate.

End Validator.

(** ** The outside world *)

(** A request sent to one of the two remote services. *)
Inductive event : Type :=
| Vies_request (vat_number country : text)
| Http_get (url : text).

Inductive cb_state : Type := STATE_CLOSED | STATE_OPEN | STATE_HALF_OPEN.

(** The circuit breaker's fields. *)
Record CircuitBreaker : Type := mkCB {
  stored_state : cb_state;
  failure_count : nat;
  opened : Z;
  last_failure : option exn }.

Record world : Type := mkWorld {
  breaker : CircuitBreaker;   (* of the decorated [vies_validation] *)
  ticks : nat;                (* readings of the clock so far *)
  net : list event;           (* requests sent so far, oldest first *)
  stdout : list text;       (* what [print] wrote *)
  written : list text }.    (* what [writer.write] wrote *)

(** What the outside world answers: to the request sent after [n] others,
    VIES gives the flag [valid] or fails inside the library with an
    exception of the given name, the HTTP GET gives a status code or
    fails likewise; [utcnow n] is the clock at its [n]-th reading. *)
Record env : Type := mkEnv {
  vies_reply : nat -> text -> text -> text + bool;
  http_reply : nat -> text -> text + Z;
  utcnow : nat -> Z }.

Definition M (A : Type) : Type := world -> result A * world.

Definition ret {A : Type} (a : A) : M A := fun w => (Ok a, w).
Definition raise {A : Type} (e : exn) : M A := fun w => (Raise e, w).
Definition lift {A : Type} (r : result A) : M A := fun w => (r, w).

Definition bind {A B : Type} (m : M A) (f : A -> M B) : M B :=
  fun w =>
    match m w with
    | (Ok a, w') => f a w'
    | (Raise e, w') => (Raise e, w')
    end.

Notation "x <- m ;; f" := (bind m (fun x => f))
  (at level 61, m at next level, right associativity).
Notation "m ;;; f" := (bind m (fun _ => f))
  (at level 61, right associativity).

Definition set_breaker (b : CircuitBreaker) (w : world) : world :=
  mkWorld b (ticks w) (net w) (stdout w) (written w).

Definition send (e : event) (w : world) : world :=
  mkWorld (breaker w) (ticks w) (net w ++ [e]) (stdout w) (written w).

Definition printed (s : text) (w : world) : world :=
  mkWorld (breaker w) (ticks w) (net w) (stdout w ++ [s ++ NL]) (written w).

Definition wrote (s : text) (w : world) : world :=
  mkWorld (breaker w) (ticks w) (net w) (stdout w) (written w ++ [s]).

Definition truncated (w : world) : world :=
  mkWorld (breaker w) (ticks w) (net w) (stdout w) [].

(** [print(s)] *)
Definition print (s : text) : M unit := fun w => (Ok tt, printed s w).

(** [writer.write(s)] *)
Definition write (s : text) : M unit := fun w => (Ok tt, wrote s w).

Section Program.

Context {U : unicode}.
Variable E : env.

Definition clock : M Z :=
  fun w =>
    (Ok (utcnow E (ticks w)),
     mkWorld (breaker w) (S (ticks w)) (net w) (stdout w) (written w)).

(** [api.Vies().request(vat_number, country, extended_info=False).valid] *)
Definition vies_request (vat_number country : text) : M bool :=
  fun w =>
    let w' := send (Vies_request vat_number country) w in
    match vies_reply E (length (net w)) vat_number country with
    | inl name => (Raise (Foreign name), w')
    | inr valid => (Ok valid, w')
    end.

(** [requests.request(method="get", url=url, allow_redirects=False).status_code] *)
Definition requests_get (url : text) : M Z :=
  fun w =>
    let w' := send (Http_get url) w in
    match http_reply E (length (net w)) url with
    | inl name => (Raise (Foreign name), w')
    | inr status_code => (Ok status_code, w')
    end.

(** *** The circuit breaker *)

Section Circuit.

Variable failure_threshold : nat.
Variable recovery_timeout : Z.
Variable expected_exception : exn -> bool.

Definition call_succeeded : M unit :=
  fun w =>
    (Ok tt, set_breaker (mkCB STATE_CLOSED 0 (opened (breaker w)) None) w).

Definition call_failed (e : exn) : M unit :=
  fun w =>
    let n := S (failure_count (breaker w)) in
    if (failure_threshold <=? n)%nat then
      (t <- clock ;;
       fun w1 => (Ok tt, set_breaker (mkCB STATE_OPEN n t (Some e)) w1)) w
    else
      (Ok tt,
       set_breaker
         (mkCB (stored_state (breaker w)) n (opened (breaker w)) (Some e)) w).

(** The state a caller sees: an open circuit whose recovery time has
    passed is half open. *)
Definition state : M cb_state :=
  fun w =>
    match stored_state (breaker w) with
    | STATE_OPEN =>
        (t <- clock ;;
         ret (if (opened (breaker w) + recovery_timeout - t <=? 0)%Z
              then STATE_HALF_OPEN else STATE_OPEN)) w
    | s => (Ok s, w)
    end.

(** Modelled from the spec: the decorator [circuit] of the package
    circuitbreaker, which is not under src/.  Closed, calls pass through;
    an expected exception adds one to the count of consecutive failures,
    a success sets it to zero, and the count reaching the threshold opens
    the circuit and records the time.  Open, a call fails at once without
    running the wrapped function, until the recovery timeout has passed;
    the next call is then let through as a trial, whose success closes
    the circuit and whose failure opens it again from that moment.  What
    counts as a failure is the decorator's argument [expected_exception]:
    any other exception passes through and is not counted. *)
Definition circuit {A : Type} (wrapped : M A) : M A :=
  s <- state ;;
  match s with
  | STATE_OPEN => raise CircuitBreakerError
  | _ =>
      fun w =>
        match wrapped w with
        | (Ok a, w') => (call_succeeded ;;; ret a) w'
        | (Raise e, w') =>
            ((if expected_exception e then call_failed e else call_succeeded)
             ;;; raise e) w'
        end
  end.

End Circuit.

(** [isinstance(e, HTTPError)] *)
Definition is_HTTPError (e : exn) : bool :=
  match e with HTTPError _ => true | _ => false end.

(** *** vies_validation (lines 69-91) *)

Definition vies_validation (vat_number country : text) : M bool :=
  circuit 5 10 is_HTTPError (vies_request vat_number country).

(** *** axesor_validation (lines 94-121) *)

Definition axesor_url (vat_number : text) : text :=
  "https://www.axesor.es/buscar/empresas?q=" ++ vat_number
    ++ "&tabActivo=empresas".

Definition axesor_validation (vat_number : text) : M bool :=
  let url := axesor_url vat_number in
  status_code <- requests_get url ;;
  if (status_code =? 200)%Z then ret false
  else if (status_code =? 302)%Z then ret true
  else raise (HTTPError "Unexpected result from axesor").

(** *** locate_vax_number (lines 124-155) *)

Definition error_msg : text := "Not Found".

(** [a and b], as a truth value. *)
Definition and_then (a : M bool) (b : M bool) : M bool :=
  x <- a ;; if x then b else ret false.

Definition format_ok (vat_number country : text) : M bool :=
  m <- lift (Validator.validate vat_number country) ;; ret (truthy m).

(** The body of the loop, for one line of the source file. *)
Definition process_line (line : text) : M unit :=
  let vat_number := normalize line in
  print ("Processing " ++ vat_number) ;;;
  es <- format_ok ("ES" ++ vat_number) "ES" ;;
  if es then
    result <- vies_validation ("ES" ++ vat_number) "ES" ;;
    if result then write (vat_number ++ ",ES," ++ NL)
    else
      found <- axesor_validation vat_number ;;
      if found then write (vat_number ++ ",ES," ++ NL)
      else write (vat_number ++ ",ES," ++ error_msg ++ NL)
  else
    gb <- and_then (format_ok vat_number "GB")
                   (vies_validation vat_number "GB") ;;
    if gb then write (vat_number ++ ",GB," ++ NL)
    else
      de <- and_then (format_ok vat_number "DE")
                     (vies_validation vat_number "DE") ;;
      if de then write (vat_number ++ ",DE," ++ NL)
      else write (vat_number ++ ",," ++ error_msg ++ NL).

Fixpoint for_each {A : Type} (f : A -> M unit) (l : list A) : M unit :=
  match l with
  | [] => ret tt
  | x :: l' => f x ;;; for_each f l'
  end.

(** The source is opened, then the output, which empties it; then the
    lines of the source are read, and handled one by one.  What [open] or
    [readlines] raises goes up. *)
Definition locate_vax_number (source : source_file) (output : output_file)
  : M unit :=
  match source with
  | Unreadable name => raise (Foreign name)
  | _ =>
      match output with
      | Unwritable name => raise (Foreign name)
      | Writable =>
          fun w =>
            match source with
            | Readable content =>
                for_each process_line (readlines content) (truncated w)
            | Undecodable name | Unreadable name =>
                (Raise (Foreign name), truncated w)
            end
      end
  end.

(** The world in which the program starts: the decorator has built its
    breaker, closed, and nothing was sent or written yet. *)
Definition start : world :=
  mkWorld (mkCB STATE_CLOSED 0 (utcnow E 0) None) 1 [] [] [].

End Program.

(** ** The specification's words, to compare the code with *)

(** What it is for a pattern to match a piece [m] of text standing [n]
    characters into the text and followed by [post].  [eol] says where
    [$] holds. *)
Section Denotation.

Context {U : unicode}.
Variable eol : text -> bool.

Fixpoint rounds (L : nat -> text -> text -> Prop) (k n : nat)
    (m post : text) : Prop :=
  match k with
  | 0 => m = ""
  | S k' =>
      exists m1 m2,
        m = m1 ++ m2 /\ L n m1 (m2 ++ post)
        /\ rounds L k' (n + length m1) m2 post
  end.

Fixpoint matches (r : regex) (n : nat) (m post : text) : Prop :=
  match r with
  | Eps => m = ""
  | One cs => exists c, m = [c] /\ existsb (item_mem c) cs = true
  | Bol => m = "" /\ n = 0
  | Eol => m = "" /\ eol post = true
  | Cat a b =>
      exists m1 m2,
        m = m1 ++ m2 /\ matches a n m1 (m2 ++ post)
        /\ matches b (n + length m1) m2 post
  | Alt a b => matches a n m post \/ matches b n m post
  | Rep a lo hi => exists k, lo <= k <= hi /\ rounds (matches a) k n m post
  end.

End Denotation.

(** [$] read as the end of the text, nothing else. *)
Definition at_end (rest : text) : bool :=
  match rest with "" => true | _ => false end.

Section Priority.

Context {U : unicode}.
Variable E : env.

(** The full identifier matches the pattern, anchored at both ends. *)
Definition full_match (r : regex) (s : text) : Prop :=
  matches at_end r 0 s "".

(** The countries of [cs] are tried in order; one is accepted when the
    format matches and the remote check confirms, and the remote check is
    made only when the format matched. *)
Fixpoint first_accepted (cs : list text) (vat_number : text)
  : M (option text) :=
  match cs with
  | [] => ret None
  | c :: cs' =>
      ok <- and_then (format_ok vat_number c) (vies_validation E vat_number c) ;;
      if ok then ret (Some c) else first_accepted cs' vat_number
  end.

(** The record of an identifier classified as [c], or as no country. *)
Definition record_of (vat_number : text) (c : option text) : text :=
  match c with
  | Some c => vat_number ++ "," ++ c ++ "," ++ NL
  | None => vat_number ++ ",," ++ error_msg ++ NL
  end.

(** Calling [f] and catching what it raises. *)
Definition attempt {A : Type} (f : M A) : M (result A) :=
  fun w => let '(r, w') := f w in (Ok r, w').

(** The results of [n] calls in a row, each caught. *)
Fixpoint repeatedly {A : Type} (n : nat) (f : M A) : M (list (result A)) :=
  match n with
  | 0 => ret []
  | S n' => r <- attempt f ;; rs <- repeatedly n' f ;; ret (r :: rs)
  end.

End Priority.

(** An outside world that always answers the same, its clock giving the
    number of the reading. *)
Definition env_of (vies : text + bool) (http : text + Z) : env :=
  mkEnv (fun _ _ _ => vies) (fun _ _ => http) (fun n => Z.of_nat n).

(** VIES cannot be reached. *)
Definition vies_down : env := env_of (inl "ViesHTTPError") (inr 200%Z).

(** The pairs of country and error a record can show. *)
Definition classifications : list (text * text) :=
  [("ES", ""); ("ES", "Not Found"); ("GB", ""); ("DE", "");
   ("", "Not Found")].

Section Notions.

Context {U : unicode}.

(** Is [l] a record for the line [line]? *)
Definition record_for (line l : text) : Prop :=
  exists country err,
    In (country, err) classifications
    /\ l = normalize line ++ "," ++ country ++ "," ++ err ++ NL.

(** ** Notions used in the statements and proofs *)

(** What it means for [f] to compute the end positions of [L]. *)
Definition computes (f : pos -> list pos)
    (L : nat -> text -> text -> Prop) : Prop :=
  forall n s q,
    In q (f (n, s)) <->
    exists m, s = m ++ snd q /\ fst q = n + length m /\ L n m (snd q).

(** A pattern that ends with [$]. *)
Fixpoint closes (r : regex) : bool :=
  match r with
  | Eol => true
  | Cat _ b => closes b
  | Alt a b => closes a && closes b
  | _ => false
  end.

(** The truth value of [Validator.validate(s, c)] for a supported [c]. *)
Definition fmt (s c : text) : bool :=
  match Validator.validate s c with
  | Ok m => truthy m
  | Raise _ => false
  end.

(** The circuit is closed. *)
Definition closed (w : world) : Prop :=
  stored_state (breaker w) = STATE_CLOSED.

(** The breaker after a call that went through and was not counted. *)
Definition reset (w : world) : world :=
  set_breaker (mkCB STATE_CLOSED 0 (opened (breaker w)) None) w.

(** What a request yields: the answer, or the library's exception. *)
Definition of_reply {A : Type} (r : text + A) : result A :=
  match r with
  | inl name => Raise (Foreign name)
  | inr a => Ok a
  end.

(** Only spaces, stars and newlines. *)
Fixpoint only_blank (s : text) : bool :=
  match s with
  | "" => true
  | a :: s' =>
      (N.eqb a SP || N.eqb a STAR || N.eqb a LF) && only_blank s'
  end.

(** Only spaces and stars. *)
Fixpoint spaces_stars (s : text) : bool :=
  match s with
  | "" => true
  | a :: s' => (N.eqb a SP || N.eqb a STAR) && spaces_stars s'
  end.

(** Every text the pattern matches holds the character [c]. *)
Fixpoint demands (c : char) (r : regex) : bool :=
  match r with
  | One [Lit a] => N.eqb a c
  | Cat a b => demands c a || demands c b
  | Alt a b => demands c a && demands c b
  | Rep a lo _ => negb (Nat.eqb lo 0) && demands c a
  | _ => false
  end.

(** The exceptions a remote call can end a line with. *)
Definition remote_failure (e : exn) : Prop :=
  e = HTTPError "Unexpected result from axesor"
  \/ exists name, e = Foreign name.

(** How a line comes to its record: the country and error written, and
    the formats that led there. *)
Definition classified (vat country err : text) : Prop :=
  (country = "ES" /\ (err = "" \/ err = "Not Found")
   /\ fmt ("ES" ++ vat) "ES" = true)
  \/ (country = "GB" /\ err = "" /\ fmt ("ES" ++ vat) "ES" = false
      /\ fmt vat "GB" = true)
  \/ (country = "DE" /\ err = "" /\ fmt ("ES" ++ vat) "ES" = false
      /\ fmt vat "DE" = true)
  \/ (country = "" /\ err = "Not Found" /\ fmt ("ES" ++ vat) "ES" = false).

(** A wrapped function that raises an [HTTPError] until [up_after]
    requests have been sent, and answers true from then on. *)
Definition probe (up_after : nat) : M bool :=
  fun w =>
    (if (length (net w) <? up_after)%nat
     then Raise (HTTPError "down") else Ok true,
     send (Http_get "probe") w).

(** ** Further notions: patterns, traces and paths *)

Fixpoint lead (r : regex) : text * bool :=
  match r with
  | Eps | Bol | Eol => ("", true)
  | One [Lit c] => ([c], true)
  | Cat a b =>
      let (pa, fa) := lead a in
      if fa then let (pb, fb) := lead b in (pa ++ pb, fb) else (pa, false)
  | _ => ("", false)
  end.

Fixpoint minlen (r : regex) : nat :=
  match r with
  | Eps | Bol | Eol => 0
  | One _ => 1
  | Cat a b => minlen a + minlen b
  | Alt a b => Nat.min (minlen a) (minlen b)
  | Rep a lo _ => lo * minlen a
  end.

Fixpoint maxlen (r : regex) : nat :=
  match r with
  | Eps | Bol | Eol => 0
  | One _ => 1
  | Cat a b => maxlen a + maxlen b
  | Alt a b => Nat.max (maxlen a) (maxlen b)
  | Rep a _ hi => hi * maxlen a
  end.

(** Membership of an ASCII character in an item. *)
Definition ascii_mem (c : char) (i : item) : bool :=
  match i with
  | Lit a => N.eqb c a
  | Digit => is_digit c
  | Word => is_word c
  end.

(** The text left at a position is ASCII. *)
Definition ascii_left (q : pos) : Prop := ascii_text (snd q) = true.

(** No text the pattern matches holds the ASCII character [c]. *)
Fixpoint avoids (c : char) (r : regex) : bool :=
  match r with
  | Eps | Bol | Eol => true
  | One cs => negb (existsb (ascii_mem c) cs)
  | Cat a b | Alt a b => avoids c a && avoids c b
  | Rep a _ _ => avoids c a
  end.

Definition is_vies (e : event) : bool :=
  match e with Vies_request _ _ => true | Http_get _ => false end.

Definition is_get (e : event) : bool :=
  match e with Http_get _ => true | Vies_request _ _ => false end.

(** What [print] writes when a line is taken up. *)
Definition announce (line : text) : text :=
  "Processing " ++ normalize line ++ NL.

(** The requests one line can send. *)
Definition line_requests (vat : text) (sent : list event) : Prop :=
  sent = []
  \/ sent = [Vies_request ("ES" ++ vat) "ES"]
  \/ sent = [Vies_request ("ES" ++ vat) "ES"; Http_get (axesor_url vat)]
  \/ sent = [Vies_request vat "GB"]
  \/ sent = [Vies_request vat "DE"].
(** The breaker as the decorator built it: closed, nothing counted. *)
Definition pristine (w : world) : Prop :=
  stored_state (breaker w) = STATE_CLOSED
  /\ failure_count (breaker w) = 0
  /\ last_failure (breaker w) = None.

(** What a line leads to when the circuit is closed, read off the
    replies of the two services: the result, the requests sent and the
    record written, [n] requests having been sent before. *)
Definition line_result (E : env) (vat : text) (n : nat)
  : result unit * list event * list text :=
  let ask v c := Vies_request v c in
  if fmt ("ES" ++ vat) "ES" then
    match vies_reply E n ("ES" ++ vat) "ES" with
    | inl name => (Raise (Foreign name), [ask ("ES" ++ vat) "ES"], [])
    | inr true => (Ok tt, [ask ("ES" ++ vat) "ES"], [vat ++ ",ES," ++ NL])
    | inr false =>
        let sent := [ask ("ES" ++ vat) "ES"; Http_get (axesor_url vat)] in
        match http_reply E (S n) (axesor_url vat) with
        | inl name => (Raise (Foreign name), sent, [])
        | inr status =>
            if (status =? 200)%Z
            then (Ok tt, sent, [vat ++ ",ES,Not Found" ++ NL])
            else if (status =? 302)%Z
            then (Ok tt, sent, [vat ++ ",ES," ++ NL])
            else (Raise (HTTPError "Unexpected result from axesor"), sent, [])
        end
    end
  else if fmt vat "GB" then
    match vies_reply E n vat "GB" with
    | inl name => (Raise (Foreign name), [ask vat "GB"], [])
    | inr true => (Ok tt, [ask vat "GB"], [vat ++ ",GB," ++ NL])
    | inr false => (Ok tt, [ask vat "GB"], [vat ++ ",,Not Found" ++ NL])
    end
  else if fmt vat "DE" then
    match vies_reply E n vat "DE" with
    | inl name => (Raise (Foreign name), [ask vat "DE"], [])
    | inr true => (Ok tt, [ask vat "DE"], [vat ++ ",DE," ++ NL])
    | inr false => (Ok tt, [ask vat "DE"], [vat ++ ",,Not Found" ++ NL])
    end
  else (Ok tt, [], [vat ++ ",,Not Found" ++ NL]).





(** The text of a file made of the writes [l], in order. *)
Definition contents (l : list text) : text :=
  fold_right (@app char) "" l.

(** A written line: a text free of newlines and carriage returns, and
    its newline. *)
Definition whole_line (l : text) : Prop :=
  exists body, l = body ++ NL /\ has LF body = false /\ has CR body = false.

End Notions.

(** *** main: the checks of the two paths (lines 160-171) *)

(** [p[:p.rfind(c) + 1]]: [p] up to its last [c], that [c] included. *)
Fixpoint up_to_last (c : char) (p : text) : text :=
  match p with
  | "" => ""
  | a :: p' =>
      if has c p' then (a :: (up_to_last c p'))
      else if N.eqb a c then [a] else ""
  end.

(** [s == c * len(s)] *)
Fixpoint all_char (c : char) (s : text) : bool :=
  match s with
  | "" => true
  | a :: s' => N.eqb a c && all_char c s'
  end.

(** [os.path.dirname], as posixpath has it: the part up to the last
    slash, without its trailing slashes unless it is made of slashes
    only. *)
Definition dirname (p : text) : text :=
  let head := up_to_last SLASH p in
  if negb (text_eqb head "") && negb (all_char SLASH head)
  then rstrip SLASH head
  else head.

(** What a [type=] function gives to argparse: the value, or an
    [ArgumentTypeError] and its message. *)
Inductive converted (A : Type) : Type :=
| Value (a : A)
| ArgumentTypeError (msg : text).

Arguments Value {A} a.
Arguments ArgumentTypeError {A} msg.

Section Paths.

(** The file system, as [os.path.isfile] and [os.path.isdir] see it. *)
Variable isfile : text -> bool.
Variable isdir : text -> bool.

Definition dir_path (file : text) : converted text :=
  let directory := dirname file in
  if isdir directory then Value file
  else ArgumentTypeError (directory ++ "/ is not a valid path").

Definition file_path (file : text) : converted text :=
  if isfile file then Value file
  else ArgumentTypeError (file ++ " is not a valid path").

End Paths.

(** A file system with the one directory [/tmp] and no file. *)
Definition only_tmp (p : text) : bool := text_eqb p "/tmp".

(** * Properties *)

(** ** Strings *)

Lemma text_eqb_eq (s t : text) : text_eqb s t = true <-> s = t.
Proof.
  revert t. induction s as [|a s IH]; intros [|b t]; simpl;
    try (split; [discriminate | discriminate]); [tauto|].
  rewrite andb_true_iff, N.eqb_eq, IH.
  split; [intros [-> ->]; reflexivity | intros H; injection H; auto].
Qed.

Lemma text_eqb_refl (s : text) : text_eqb s s = true.
Proof. now apply text_eqb_eq. Qed.

Lemma text_eqb_spec (s t : text) : reflect (s = t) (text_eqb s t).
Proof. apply iff_reflect. symmetry. apply text_eqb_eq. Qed.

Lemma has_In (c : char) (s : text) : has c s = true <-> In c s.
Proof.
  induction s as [|a s IH]; simpl; [split; [discriminate | tauto]|].
  rewrite orb_true_iff, N.eqb_eq, IH. tauto.
Qed.

Lemma has_false (c : char) (s : text) : has c s = false <-> ~ In c s.
Proof.
  rewrite <- has_In. destruct (has c s); split; congruence.
Qed.

(** *** The ASCII tables *)

Lemma upper_char_idem (a : char) : upper_char (upper_char a) = upper_char a.
Proof. ascii_cases. Qed.

Lemma upper_char_fresh (a x : char) :
  upper_char a = x -> x = LF \/ x = CR \/ x = SP \/ x = STAR -> a = x.
Proof. intros <- H. ascii_cases. Qed.

Lemma upper_char_not_lower (a : char) : is_lower (upper_char a) = false.
Proof. ascii_cases. Qed.





Section Upper.

Context {U : unicode}.

Lemma upper_app (a b : text) : upper (a ++ b) = upper a ++ upper b.
Proof. apply flat_map_app. Qed.

Lemma upper_idem (s : text) : upper (upper s) = upper s.
Proof.
  induction s as [|a s IH]; simpl; [reflexivity|].
  fold (upper s). rewrite upper_app, IH. f_equal. apply uppercase_idem.
Qed.

Lemma In_upper (x : char) (s : text) :
  In x (upper s) <-> exists c, In c s /\ In x (uppercase c).
Proof. apply in_flat_map. Qed.

Lemma uppercase_self (c : char) :
  c = LF \/ c = CR \/ c = SP \/ c = STAR -> uppercase c = [c].
Proof.
  intros H. rewrite uppercase_ascii;
    destruct H as [-> | [-> | [-> | ->]]]; reflexivity.
Qed.

Lemma has_upper_plain (c : char) (s : text) :
  c = LF \/ c = CR \/ c = SP \/ c = STAR -> has c (upper s) = has c s.
Proof.
  intros Hc. apply eq_true_iff_eq. rewrite !has_In, In_upper. split.
  - intros (a & Ha & Hx). now rewrite <- (uppercase_fresh _ _ Hx Hc).
  - intros H. exists c. split; [assumption|].
    rewrite (uppercase_self Hc). now left.
Qed.

Lemma has_upper (c : char) (s : text) :
  c = LF \/ c = SP \/ c = STAR -> has c (upper s) = has c s.
Proof. intros H. apply has_upper_plain. tauto. Qed.


Lemma upper_ascii (s : text) :
  ascii_text s = true -> upper s = map upper_char s.
Proof.
  induction s as [|a s IH]; simpl; [reflexivity|].
  intros H. apply andb_true_iff in H as [Ha Hs].
  fold (upper s). now rewrite (uppercase_ascii _ Ha), IH.
Qed.

End Upper.


Lemma has_app (c : char) (s t : text) :
  has c (s ++ t) = has c s || has c t.
Proof.
  induction s as [|a s IH]; simpl; [reflexivity|].
  now rewrite IH, orb_assoc.
Qed.

Lemma has_remove_same (c : char) (s : text) :
  has c (remove_char c s) = false.
Proof.
  induction s as [|a s IH]; simpl; [reflexivity|].
  destruct (N.eqb a c) eqn:Hac; simpl; [assumption|].
  now rewrite Hac.
Qed.

Lemma has_remove_other (c c' : char) (s : text) :
  has c s = false -> has c (remove_char c' s) = false.
Proof.
  induction s as [|a s IH]; simpl; [reflexivity|].
  intros H. apply orb_false_iff in H as [Ha Hs].
  destruct (N.eqb a c'); simpl; [auto|].
  rewrite Ha. simpl. auto.
Qed.

Lemma remove_char_absent (c : char) (s : text) :
  has c s = false -> remove_char c s = s.
Proof.
  induction s as [|a s IH]; simpl; [reflexivity|].
  intros H. apply orb_false_iff in H as [Ha Hs].
  rewrite Ha. now rewrite IH.
Qed.

Lemma rstrip_absent (c : char) (s : text) :
  has c s = false -> rstrip c s = s.
Proof.
  induction s as [|a s IH]; simpl; [reflexivity|].
  intros H. apply orb_false_iff in H as [Ha Hs].
  rewrite (IH Hs), Ha. now destruct s.
Qed.

Lemma rstrip_all_lf (s : text) : all_lf s = true -> rstrip LF s = "".
Proof.
  induction s as [|a s IH]; simpl; [reflexivity|].
  intros H. apply andb_true_iff in H as [Ha Hs].
  now rewrite (IH Hs), Ha.
Qed.

Lemma rstrip_line (s : text) :
  lf_only_trailing s = true -> has LF (rstrip LF s) = false.
Proof.
  induction s as [|a s IH]; simpl; [reflexivity|].
  destruct (N.eqb a LF) eqn:Ha; intros H.
  - now rewrite (rstrip_all_lf _ H).
  - specialize (IH H).
    destruct (rstrip LF s) as [|b r]; simpl in *; now rewrite Ha.
Qed.

(** ** normalize *)

Section Normalize.

Context {U : unicode}.

Lemma normalize_no_space (x : text) : has SP (normalize x) = false.
Proof.
  unfold normalize. rewrite has_upper by auto.
  apply has_remove_other, has_remove_same.
Qed.

Lemma normalize_no_star (x : text) : has STAR (normalize x) = false.
Proof.
  unfold normalize. rewrite has_upper by auto. apply has_remove_same.
Qed.

Lemma normalize_no_newline (x : text) :
  lf_only_trailing x = true -> has LF (normalize x) = false.
Proof.
  intros H. unfold normalize. rewrite has_upper by auto.
  now apply has_remove_other, has_remove_other, rstrip_line.
Qed.

Lemma normalize_fixed (y : text) :
  has LF y = false -> has SP y = false -> has STAR y = false ->
  normalize y = upper y.
Proof.
  intros Hl Hs Ht. unfold normalize.
  now rewrite (rstrip_absent _ _ Hl), (remove_char_absent _ _ Hs),
    (remove_char_absent _ _ Ht).
Qed.

(** C7, amended: [normalize] is a total function, and normalising twice
    is normalising once on every text whose newlines all stand at its end
    (every line that [readlines] yields is such a text). *)
Theorem normalize_idempotent_on_lines (x : text) :
  lf_only_trailing x = true ->
  normalize (normalize x) = normalize x.
Proof.
  intros H.
  rewrite normalize_fixed.
  - unfold normalize. apply upper_idem.
  - now apply normalize_no_newline.
  - apply normalize_no_space.
  - apply normalize_no_star.
Qed.

End Normalize.

Section Normalize_examples.

Local Existing Instance plain.

(** C7, as stated, fails: on a text with a newline before its last
    piece, here ["A\n \n"], normalising twice is not normalising once. *)
Lemma normalize_twice_differs :
  let x := "A" ++ [LF; SP; LF] in
  normalize x = "A" ++ [LF]
  /\ normalize (normalize x) = "A"
  /\ normalize (normalize x) <> normalize x.
Proof. repeat split; discriminate. Qed.

Lemma normalize_idempotent_on_lines_witness :
  lf_only_trailing ("b12 34*5678" ++ NL) = true
  /\ normalize (normalize ("b12 34*5678" ++ NL)) = normalize ("b12 34*5678" ++ NL).
Proof.
  split; [reflexivity|].
  apply (normalize_idempotent_on_lines ("b12 34*5678" ++ NL)). reflexivity.
Defined.

End Normalize_examples.

(** ** The matcher is sound and complete for [matches] *)

Lemma sapp_nil_r (s : text) : s ++ "" = s.
Proof. induction s as [|a s IH]; simpl; [reflexivity | now rewrite IH]. Qed.

Lemma sapp_assoc (s t u : text) : (s ++ t) ++ u = s ++ t ++ u.
Proof. induction s as [|a s IH]; simpl; [reflexivity | now rewrite IH]. Qed.

Lemma slength_app (s t : text) :
  length (s ++ t) = length s + length t.
Proof. induction s as [|a s IH]; simpl; [reflexivity | now rewrite IH]. Qed.

Lemma sapp_inv_head (s t u : text) : s ++ t = s ++ u -> t = u.
Proof.
  induction s as [|a s IH]; simpl; [auto|].
  intros H. injection H as H. auto.
Qed.

Section Matcher.

Context {U : unicode}.
Variable eol : text -> bool.

Lemma iter_computes f L lo hi :
  computes f L ->
  computes (iter f lo hi)
    (fun n m post => exists k, lo <= k <= hi /\ rounds L k n m post).
Proof.
  intros Hf. revert lo.
  induction hi as [|h IH]; intros lo n s q; simpl.
  - destruct lo as [|lo]; simpl; split.
    + intros [<- | []]. exists "". simpl. repeat split; [lia|].
      exists 0. split; [lia | reflexivity].
    + intros (m & Hs & Hn & k & Hk & Hr).
      assert (k = 0) by lia. subst k. simpl in Hr. subst m. simpl in Hs.
      left. destruct q as [qn qs]. simpl in *. subst. f_equal. lia.
    + intros [].
    + intros (m & _ & _ & k & Hk & _). lia.
  - rewrite in_app_iff, in_flat_map. split.
    + intros [((xn, xs) & Hx & Hq) | Hq].
      * apply Hf in Hx. destruct Hx as (m1 & Hs1 & Hn1 & HL).
        apply IH in Hq. destruct Hq as (m2 & Hs2 & Hn2 & k & Hk & Hr).
        simpl in *. subst xn xs.
        exists (m1 ++ m2). rewrite sapp_assoc, slength_app.
        repeat split; [congruence | lia |].
        exists (S k). split; [lia|]. simpl. exists m1, m2. auto.
      * destruct lo as [|lo]; simpl in Hq; [|contradiction].
        destruct Hq as [<- | []]. exists "". simpl.
        repeat split; [lia|]. exists 0. split; [lia | reflexivity].
    + intros (m & Hs & Hn & k & Hk & Hr).
      destruct k as [|k]; simpl in Hr.
      * right. assert (lo = 0) by lia. subst lo m. simpl in *.
        left. destruct q as [qn qs]. simpl in *. subst. f_equal. lia.
      * left. destruct Hr as (m1 & m2 & -> & HL & Hr).
        exists (n + length m1, m2 ++ snd q). split.
        -- apply Hf. exists m1. simpl. rewrite <- sapp_assoc. auto.
        -- apply IH. exists m2. simpl. rewrite slength_app in Hn.
           repeat split; [lia|]. exists k. split; [lia | assumption].
Qed.

Lemma run_with_computes (r : regex) :
  computes (run_with eol r) (matches eol r).
Proof.
  induction r as [|cs| | |a IHa b IHb|a IHa b IHb|a IHa lo hi].
  - intros n s q. simpl. split.
    + intros [<- | []]. exists "". simpl. repeat split. lia.
    + intros (m & Hs & Hn & ->). simpl in *. left.
      destruct q; simpl in *; subst; f_equal; lia.
  - intros n s q. simpl. split.
    + destruct s as [|c s]; [intros []|].
      destruct (existsb (item_mem c) cs) eqn:Hc; [|intros []].
      intros [<- | []]. simpl. exists ([c]). simpl.
      repeat split; [lia|]. exists c. auto.
    + intros (m & Hs & Hn & c & -> & Hc). simpl in *. subst s.
      rewrite Hc. left. destruct q; simpl in *; subst; f_equal; lia.
  - intros n s q. unfold run_with, at_bol. simpl. split.
    + destruct (Nat.eqb_spec n 0); [|intros []].
      intros [<- | []]. exists "". simpl. repeat split; lia.
    + intros (m & Hs & Hn & -> & ->). simpl in *. left.
      destruct q; simpl in *; subst; reflexivity.
  - intros n s q. simpl. split.
    + destruct (eol s) eqn:He; [|intros []].
      intros [<- | []]. exists "". simpl. repeat split; [lia | assumption].
    + intros (m & Hs & Hn & -> & He). simpl in *. subst s. rewrite He.
      left. destruct q; simpl in *; subst; f_equal; lia.
  - intros n s q. simpl. rewrite in_flat_map. split.
    + intros ((xn, xs) & Hx & Hq).
      apply IHa in Hx. destruct Hx as (m1 & Hs1 & Hn1 & Ha).
      apply IHb in Hq. destruct Hq as (m2 & Hs2 & Hn2 & Hb).
      simpl in *. subst xn xs.
      exists (m1 ++ m2). rewrite sapp_assoc, slength_app.
      repeat split; [congruence | lia |]. exists m1, m2. auto.
    + intros (m & Hs & Hn & m1 & m2 & -> & Ha & Hb).
      exists (n + length m1, m2 ++ snd q). split.
      * apply IHa. exists m1. simpl. rewrite <- sapp_assoc. auto.
      * apply IHb. exists m2. simpl. rewrite slength_app in Hn.
        repeat split; [lia | assumption].
  - intros n s q. simpl. rewrite in_app_iff, (IHa n s q), (IHb n s q).
    split.
    + intros [(m & H1 & H2 & H3) | (m & H1 & H2 & H3)]; exists m; auto.
    + intros (m & H1 & H2 & [H3 | H3]); [left | right]; exists m; auto.
  - intros n s q. simpl. apply (iter_computes lo hi IHa).
Qed.

End Matcher.

(** ** On ASCII text every table gives the same matches *)

Lemma upper_plain_map (s : text) : upper (U:=plain) s = map upper_char s.
Proof.
  induction s as [|a s IH]; simpl; [reflexivity|].
  now f_equal.
Qed.

Section Ascii_text.

Context {U : unicode}.

Lemma item_mem_ascii (c : char) (i : item) :
  is_ascii c = true -> item_mem c i = ascii_mem c i.
Proof.
  intros Hc. destruct i; simpl;
    [reflexivity | now apply decimal_ascii | now apply wordchar_ascii].
Qed.

Lemma existsb_item_mem_ascii (c : char) (cs : list item) :
  is_ascii c = true -> existsb (item_mem c) cs = existsb (ascii_mem c) cs.
Proof.
  intros Hc. induction cs as [|i cs IH]; simpl; [reflexivity|].
  now rewrite IH, item_mem_ascii.
Qed.

Lemma flat_map_agree (f g : pos -> list pos) (l : list pos) :
  (forall p, ascii_left p -> f p = g p /\ Forall ascii_left (g p)) ->
  Forall ascii_left l ->
  flat_map f l = flat_map g l /\ Forall ascii_left (flat_map g l).
Proof.
  intros Hfg. induction 1 as [|p l Hp Hl [IH1 IH2]]; simpl.
  - split; [reflexivity | constructor].
  - destruct (Hfg p Hp) as [H1 H2]. rewrite H1, IH1.
    split; [reflexivity|]. apply Forall_app. auto.
Qed.

Lemma iter_agree (f g : pos -> list pos) :
  (forall p, ascii_left p -> f p = g p /\ Forall ascii_left (g p)) ->
  forall hi lo p, ascii_left p ->
    iter f lo hi p = iter g lo hi p /\ Forall ascii_left (iter g lo hi p).
Proof.
  intros Hfg. induction hi as [|h IH]; intros lo p Hp; simpl.
  - split; [reflexivity|]. destruct (Nat.eqb lo 0); auto.
  - destruct (Hfg p Hp) as [H1 H2]. rewrite H1.
    destruct (@flat_map_agree (iter f (pred lo) h) (iter g (pred lo) h)
                (g p) (IH (pred lo)) H2) as [H3 H4].
    rewrite H3. split; [reflexivity|].
    apply Forall_app. split; [assumption|].
    destruct (Nat.eqb lo 0); auto.
Qed.

Lemma run_with_ascii (eol : text -> bool) (r : regex) :
  forall p, ascii_left p ->
    run_with eol r p = run_with (U:=plain) eol r p
    /\ Forall ascii_left (run_with (U:=plain) eol r p).
Proof.
  induction r as [|cs| | |a IHa b IHb|a IHa b IHb|a IHa lo hi];
    intros p Hp; simpl.
  - auto.
  - unfold ascii_left in Hp. destruct (snd p) as [|c s']; [auto|].
    simpl in Hp. apply andb_true_iff in Hp as [Hc Hs].
    rewrite (@existsb_item_mem_ascii c cs Hc).
    change (existsb (item_mem (U:=plain) c) cs)
      with (existsb (ascii_mem c) cs).
    split; [reflexivity|]. destruct (existsb (ascii_mem c) cs); auto.
  - split; [reflexivity|]. destruct (at_bol p); auto.
  - split; [reflexivity|]. destruct (eol (snd p)); auto.
  - destruct (IHa p Hp) as [H1 H2]. rewrite H1.
    now apply flat_map_agree.
  - destruct (IHa p Hp) as [H1 H2]. destruct (IHb p Hp) as [H3 H4].
    rewrite H1, H3. split; [reflexivity|]. apply Forall_app. auto.
  - now apply iter_agree.
Qed.

Lemma re_match_ascii (r : regex) (s : text) :
  ascii_text s = true -> re_match r s = re_match (U:=plain) r s.
Proof.
  intros Hs. unfold re_match, run.
  now destruct (@run_with_ascii at_eol r (0, s) Hs) as [-> _].
Qed.

Lemma validate_ascii (s c : text) :
  ascii_text s = true ->
  Validator.validate s c = Validator.validate (U:=plain) s c.
Proof.
  intros Hs. unfold Validator.validate.
  destruct (lookup c Validator.vat_number_regexps); [|reflexivity].
  now rewrite re_match_ascii.
Qed.

Lemma upper_plain (s : text) :
  ascii_text s = true -> upper s = upper (U:=plain) s.
Proof.
  intros H. rewrite (upper_ascii _ H), upper_plain_map. reflexivity.
Qed.

Lemma normalize_plain (s : text) :
  ascii_text s = true -> normalize s = normalize (U:=plain) s.
Proof.
  intros H. unfold normalize. apply upper_plain.
  unfold ascii_text in *. rewrite forallb_forall in *.
  intros c Hc. apply H.
  assert (Hsub : forall c k t, In c (remove_char k t) -> In c t).
  { intros c0 k t. induction t as [|a t IH]; simpl; [auto|].
    destruct (N.eqb a k); simpl; intuition. }
  assert (Hstrip : forall c k t, In c (rstrip k t) -> In c t).
  { intros c0 k t. induction t as [|a t IH]; simpl; [auto|].
    destruct (rstrip k t) as [|b r'].
    - destruct (N.eqb a k); simpl; intuition.
    - simpl. simpl in IH. intuition. }
  eauto.
Qed.

End Ascii_text.

(** ** Validator.validate *)

Section Validate_facts.

Context {U : unicode}.

Lemma closes_eol eol (r : regex) :
  closes r = true ->
  forall n m post, matches eol r n m post -> eol post = true.
Proof.
  induction r as [|cs| | |a IHa b IHb|a IHa b IHb|a IHa lo hi];
    simpl; try discriminate; intros Hc n m post H.
  - apply H.
  - destruct H as (m1 & m2 & _ & _ & Hb). eauto.
  - apply andb_true_iff in Hc as [Ha Hb]. destruct H; eauto.
Qed.

Lemma ends_with_app (c : char) (x y : text) :
  ends_with c (x ++ y) = false -> ends_with c y = false.
Proof.
  induction x as [|a x IH]; simpl; [auto|].
  destruct (x ++ y) as [|b z] eqn:Hxy.
  - destruct x; [simpl in Hxy; now subst | discriminate].
  - auto.
Qed.

Lemma at_eol_at_end (post : text) :
  ends_with LF post = false -> at_eol post = at_end post.
Proof. destruct post as [|c [|c' post]]; simpl; auto. Qed.

Lemma rounds_eol_agree (L1 L2 : nat -> text -> text -> Prop) :
  (forall n m post, ends_with LF (m ++ post) = false ->
                    (L1 n m post <-> L2 n m post)) ->
  forall k n m post,
    ends_with LF (m ++ post) = false ->
    (rounds L1 k n m post <-> rounds L2 k n m post).
Proof.
  intros HL. induction k as [|k IH]; intros n m post Hm; simpl; [tauto|].
  split; intros (m1 & m2 & -> & H1 & H2); exists m1, m2;
    rewrite sapp_assoc in Hm; (split; [reflexivity|]); split;
    try (apply HL; assumption);
    apply IH; try assumption; eapply ends_with_app; eassumption.
Qed.

(** On a text that does not end with a newline, Python's [$] and the end
    of the text are the same thing. *)
Lemma matches_eol_agree (r : regex) :
  forall n m post,
    ends_with LF (m ++ post) = false ->
    (matches at_eol r n m post <-> matches at_end r n m post).
Proof.
  induction r as [|cs| | |a IHa b IHb|a IHa b IHb|a IHa lo hi];
    intros n m post Hm; simpl; try tauto.
  - split; intros [-> H]; simpl in Hm; split; try reflexivity.
    + now rewrite <- at_eol_at_end.
    + now rewrite at_eol_at_end.
  - split; intros (m1 & m2 & -> & H1 & H2); exists m1, m2;
      rewrite sapp_assoc in Hm; (split; [reflexivity|]); split;
      try (apply IHa; assumption);
      apply IHb; try assumption; eapply ends_with_app; eassumption.
  - rewrite (IHa n m post Hm), (IHb n m post Hm). tauto.
  - split; intros (k & Hk & H); exists k; (split; [assumption|]);
      eapply (rounds_eol_agree _ _ IHa); eassumption.
Qed.

Lemma full_match_run (r : regex) (s : text) :
  full_match r s <-> In (length s, "") (run_with at_end r (0, s)).
Proof.
  unfold full_match. rewrite (run_with_computes at_end r 0 s). simpl. split.
  - intros H. exists s. now rewrite sapp_nil_r.
  - intros (m & Hs & _ & H). rewrite sapp_nil_r in Hs. now subst m.
Qed.

Lemma truthy_re_match (r : regex) (s : text) :
  truthy (re_match r s) = true <-> exists q, In q (run r (0, s)).
Proof.
  unfold re_match. destruct (run r (0, s)) as [|p l]; simpl; split.
  - discriminate.
  - intros [q []].
  - intros _. exists p. now left.
  - reflexivity.
Qed.

Lemma re_match_full (r : regex) (s : text) :
  closes r = true -> ends_with LF s = false ->
  (truthy (re_match r s) = true <-> full_match r s).
Proof.
  intros Hc Hs. rewrite truthy_re_match. unfold run, full_match. split.
  - intros (q & Hq). apply run_with_computes in Hq.
    destruct Hq as (m & Hm & _ & H).
    assert (He : at_eol (snd q) = true) by (eapply closes_eol; eassumption).
    rewrite Hm in Hs.
    rewrite (at_eol_at_end _ (ends_with_app _ _ _ Hs)) in He.
    destruct (snd q); [|discriminate].
    rewrite sapp_nil_r in Hm. subst m. apply matches_eol_agree; assumption.
  - intros H. exists (length s, ""). apply run_with_computes. simpl.
    exists s. rewrite sapp_nil_r. repeat split.
    apply matches_eol_agree; [now rewrite sapp_nil_r | assumption].
Qed.

Lemma lookup_In {A : Type} (k : text) (l : list (text * A)) (v : A) :
  lookup k l = Some v -> In (k, v) l.
Proof.
  induction l as [|[k' v'] l IH]; simpl; [discriminate|].
  destruct (text_eqb_spec k k') as [-> | _]; [|auto].
  intros [= ->]. now left.
Qed.

Lemma lookup_absent {A : Type} (k : text) (l : list (text * A)) :
  ~ In k (map fst l) -> lookup k l = None.
Proof.
  induction l as [|[k' v'] l IH]; simpl; [reflexivity|].
  intros H. destruct (text_eqb_spec k k') as [-> | _]; [|auto].
  exfalso. auto.
Qed.

(** The 28 keys of the table are distinct, so the list read from the left
    is the dict. *)
Lemma vat_number_regexps_keys :
  NoDup (map fst Validator.vat_number_regexps)
  /\ length Validator.vat_number_regexps = 28.
Proof.
  split; [|reflexivity].
  simpl. repeat (constructor; [simpl; intuition discriminate|]). constructor.
Qed.

Lemma vat_number_regexps_close (c : text) (r : regex) :
  lookup c Validator.vat_number_regexps = Some r -> closes r = true.
Proof.
  intros H. apply lookup_In in H.
  assert (Hall : forallb (fun kv => closes (snd kv))
                   Validator.vat_number_regexps = true) by reflexivity.
  rewrite forallb_forall in Hall. apply (Hall _ H).
Qed.

(** C6, amended: for every identifier that does not end with a newline and
    every country code of the registry, [validate] returns a value that is
    true exactly when the full identifier matches the country's pattern
    anchored at both ends; the registry has 28 entries; "DE123456789"
    matches the DE rule and "DE12345678" does not. *)
Theorem validate_full_match (c : text) (r : regex) (s : text) :
  lookup c Validator.vat_number_regexps = Some r ->
  ends_with LF s = false ->
  (exists m, Validator.validate s c = Ok m
             /\ (truthy m = true <-> full_match r s))
  /\ length Validator.vat_number_regexps = 28
  /\ Validator.validate "DE123456789" "DE" = Ok (Some 11)
  /\ Validator.validate "DE12345678" "DE" = Ok None.
Proof.
  intros Hr Hs. split; [|repeat split; try (now rewrite validate_ascii)].
  exists (re_match r s). unfold Validator.validate. rewrite Hr.
  split; [reflexivity|].
  apply re_match_full; [eapply vat_number_regexps_close; eassumption | assumption].
Qed.

End Validate_facts.

Section Validate_examples.

Local Existing Instance plain.

(** C6, as stated, fails: the DE pattern accepts ["DE123456789\n"], a text
    of 12 characters of which the match covers 11, and which as a whole
    does not match the pattern. *)
Lemma validate_accepts_trailing_newline :
  exists r,
    lookup "DE" Validator.vat_number_regexps = Some r
    /\ Validator.validate ("DE123456789" ++ NL) "DE" = Ok (Some 11)
    /\ length ("DE123456789" ++ NL) = 12
    /\ ~ full_match r ("DE123456789" ++ NL).
Proof.
  eexists. split; [reflexivity|]. repeat split.
  rewrite full_match_run. vm_compute. tauto.
Qed.

Lemma validate_full_match_witness :
  exists r,
    lookup "DE" Validator.vat_number_regexps = Some r
    /\ ends_with LF "DE123456789" = false
    /\ exists m, Validator.validate "DE123456789" "DE" = Ok m
                 /\ (truthy m = true <-> full_match r "DE123456789").
Proof.
  eexists. split; [reflexivity|]. split; [reflexivity|].
  exact (proj1 (validate_full_match "DE" "DE123456789" eq_refl eq_refl)).
Defined.

End Validate_examples.

Section Unsupported.

Context {U : unicode}.

(** C8: with a country code that is not a key of the registry, [validate]
    raises [KeyError] (the UnsupportedCountry condition): it does not
    return, neither a match nor [None]. *)
Theorem validate_unsupported_country (vat_number c : text) :
  ~ In c (map fst Validator.vat_number_regexps) ->
  Validator.validate vat_number c = Raise (KeyError c)
  /\ forall m, Validator.validate vat_number c <> Ok m.
Proof.
  intros H. unfold Validator.validate. rewrite (lookup_absent _ _ H).
  split; [reflexivity | discriminate].
Qed.

End Unsupported.

Section Unsupported_examples.

Local Existing Instance plain.

Lemma validate_unsupported_country_witness :
  ~ In "XX" (map fst Validator.vat_number_regexps)
  /\ Validator.validate "XX123456789" "XX" = Raise (KeyError "XX").
Proof.
  assert (H : ~ In "XX" (map fst Validator.vat_number_regexps))
    by (simpl; intuition discriminate).
  split; [exact H|].
  exact (proj1 (validate_unsupported_country "XX123456789" H)).
Defined.

End Unsupported_examples.

(** ** The remote checkers *)

Section Checkers.

Context {U : unicode}.
Variable E : env.

Lemma format_ok_supported (s c : text) (w : world) :
  c = "ES" \/ c = "GB" \/ c = "DE" ->
  format_ok s c w = (Ok (fmt s c), w).
Proof.
  intros Hc. unfold format_ok, fmt, bind, lift, ret.
  destruct (Validator.validate s c) as [m|e] eqn:H; [reflexivity|].
  exfalso. unfold Validator.validate in H.
  destruct Hc as [-> | [-> | ->]]; simpl in H; discriminate.
Qed.

(** With the circuit closed, the request is sent, its outcome is the
    call's, and the breaker is left closed with no failure counted:
    what the request raises is never an [HTTPError]. *)
Lemma vies_validation_closed (v c : text) (w : world) :
  closed w ->
  vies_validation E v c w =
    (of_reply (vies_reply E (length (net w)) v c),
     reset (send (Vies_request v c) w)).
Proof.
  unfold closed. intros H.
  unfold vies_validation, circuit, bind, state. rewrite H.
  unfold vies_request.
  destruct (vies_reply E (length (net w)) v c); reflexivity.
Qed.

Lemma vies_validation_effects (v c : text) (w : world) :
  let '(r, w') := vies_validation E v c w in
  written w' = written w /\ stdout w' = stdout w
  /\ (net w' = net w \/ net w' = (net w ++ [Vies_request v c])%list).
Proof.
  unfold vies_validation, circuit, bind, state, clock, ret, raise,
    vies_request, call_succeeded, call_failed.
  destruct (stored_state (breaker w)); simpl;
    repeat match goal with
      | |- context [if ?b then _ else _] => destruct b; simpl
      | |- context [match vies_reply ?a ?b ?c ?d with _ => _ end] =>
          destruct (vies_reply a b c d); simpl
      end; auto.
Qed.

Lemma axesor_validation_eq (v : text) (w : world) :
  axesor_validation E v w =
    (match http_reply E (length (net w)) (axesor_url v) with
     | inl name => Raise (Foreign name)
     | inr status =>
         if (status =? 200)%Z then Ok false
         else if (status =? 302)%Z then Ok true
         else Raise (HTTPError "Unexpected result from axesor")
     end,
     send (Http_get (axesor_url v)) w).
Proof.
  unfold axesor_validation, bind, requests_get.
  destruct (http_reply E (length (net w)) (axesor_url v)) as [name|st];
    [reflexivity|].
  destruct (st =? 200)%Z; [reflexivity|].
  destruct (st =? 302)%Z; reflexivity.
Qed.

(** C5: the fallback checker returns false on status 200 and true on
    status 302 (the redirect it knows), and raises [HTTPError] (the
    UnexpectedRemoteStatus condition) on every other status, 404 among
    them, returning neither true nor false. *)
Theorem axesor_validation_status (v : text) (w : world) (status : Z) :
  http_reply E (length (net w)) (axesor_url v) = inr status ->
  let r := fst (axesor_validation E v w) in
  (status = 200%Z -> r = Ok false)
  /\ (status = 302%Z -> r = Ok true)
  /\ (status <> 200%Z -> status <> 302%Z ->
      r = Raise (HTTPError "Unexpected result from axesor")
      /\ forall b, r <> Ok b)
  /\ net (snd (axesor_validation E v w))
     = (net w ++ [Http_get (axesor_url v)])%list.
Proof.
  intros H. rewrite axesor_validation_eq, H. simpl.
  repeat split.
  - now intros ->.
  - now intros ->.
  - apply Z.eqb_neq in H0, H1. now rewrite H0, H1.
  - apply Z.eqb_neq in H0, H1. rewrite H0, H1. discriminate.
Qed.

End Checkers.

Section Checkers_examples.

Local Existing Instance plain.

Lemma axesor_validation_status_witness :
  let E := env_of (inr false) (inr 404%Z) in
  http_reply E 0 (axesor_url "B12345678") = inr 404%Z
  /\ fst (axesor_validation E "B12345678" (start E))
     = Raise (HTTPError "Unexpected result from axesor").
Proof.
  split; [reflexivity|].
  refine (proj1 (proj1 (proj2 (proj2
    (axesor_validation_status (env_of (inr false) (inr 404%Z))
       "B12345678" (start (env_of (inr false) (inr 404%Z))) eq_refl))) _ _));
    discriminate.
Defined.

End Checkers_examples.

(** ** The pipeline, line by line *)

Section Pipeline.

Context {U : unicode}.
Variable E : env.

(** The loop body, with the monad's plumbing taken away. *)
Lemma process_line_eq (line : text) (w : world) :
  let vat := normalize line in
  let w0 := printed ("Processing " ++ vat) w in
  process_line E line w =
    if fmt ("ES" ++ vat) "ES" then
      match vies_validation E ("ES" ++ vat) "ES" w0 with
      | (Ok true, w1) => (Ok tt, wrote (vat ++ ",ES," ++ NL) w1)
      | (Ok false, w1) =>
          match axesor_validation E vat w1 with
          | (Ok true, w2) => (Ok tt, wrote (vat ++ ",ES," ++ NL) w2)
          | (Ok false, w2) =>
              (Ok tt, wrote (vat ++ ",ES," ++ error_msg ++ NL) w2)
          | (Raise e, w2) => (Raise e, w2)
          end
      | (Raise e, w1) => (Raise e, w1)
      end
    else
      match (if fmt vat "GB" then vies_validation E vat "GB" w0
             else (Ok false, w0)) with
      | (Ok true, w1) => (Ok tt, wrote (vat ++ ",GB," ++ NL) w1)
      | (Ok false, w1) =>
          match (if fmt vat "DE" then vies_validation E vat "DE" w1
                 else (Ok false, w1)) with
          | (Ok true, w2) => (Ok tt, wrote (vat ++ ",DE," ++ NL) w2)
          | (Ok false, w2) =>
              (Ok tt, wrote (vat ++ ",," ++ error_msg ++ NL) w2)
          | (Raise e, w2) => (Raise e, w2)
          end
      | (Raise e, w1) => (Raise e, w1)
      end.
Proof.
  intros vat w0. unfold process_line. fold vat.
  unfold bind at 1. unfold print. fold w0.
  unfold bind at 1. rewrite format_ok_supported by auto.
  destruct (fmt ("ES" ++ vat) "ES").
  - unfold bind at 1.
    destruct (vies_validation E ("ES" ++ vat) "ES" w0) as [[[|]|e] w1];
      try reflexivity.
    unfold bind at 1.
    destruct (axesor_validation E vat w1) as [[[|]|e] w2]; reflexivity.
  - unfold bind at 1. unfold and_then at 1. unfold bind at 1.
    rewrite format_ok_supported by auto.
    destruct (fmt vat "GB").
    + destruct (vies_validation E vat "GB" w0) as [[[|]|e] w1];
        try reflexivity.
      unfold bind at 1. unfold and_then at 1. unfold bind at 1.
      rewrite format_ok_supported by auto.
      destruct (fmt vat "DE"); [|reflexivity].
      destruct (vies_validation E vat "DE" w1) as [[[|]|e] w2]; reflexivity.
    + unfold ret at 1.
      unfold bind at 1. unfold and_then at 1. unfold bind at 1.
      rewrite format_ok_supported by auto.
      destruct (fmt vat "DE"); [|reflexivity].
      destruct (vies_validation E vat "DE" w0) as [[[|]|e] w2]; reflexivity.
Qed.

End Pipeline.

Section Branches.

Context {U : unicode}.
Variable E : env.

Lemma fmt_of_validate (s c : text) (m : option nat) :
  Validator.validate s c = Ok m -> fmt s c = truthy m.
Proof. unfold fmt. now intros ->. Qed.

(** C1, amended: when the ES-prefixed identifier has the ES format, the
    remote checker is called; on Confirmed the record is ES with no
    error; on NotFound the fallback checker is called, and the record is
    ES with no error if it returns true, ES with "Not Found" if it
    returns false; when the remote checker is Unavailable (it raises),
    the fallback is not called, nothing is written and the error goes
    up. *)
Theorem es_branch (line : text) (w : world) (k : nat) :
  let vat := normalize line in
  Validator.validate ("ES" ++ vat) "ES" = Ok (Some k) ->
  let w0 := printed ("Processing " ++ vat) w in
  match vies_validation E ("ES" ++ vat) "ES" w0 with
  | (Ok true, w1) =>
      process_line E line w = (Ok tt, wrote (vat ++ ",ES," ++ NL) w1)
  | (Ok false, w1) =>
      match axesor_validation E vat w1 with
      | (Ok true, w2) =>
          process_line E line w = (Ok tt, wrote (vat ++ ",ES," ++ NL) w2)
      | (Ok false, w2) =>
          process_line E line w
          = (Ok tt, wrote (vat ++ ",ES,Not Found" ++ NL) w2)
      | (Raise e, w2) => process_line E line w = (Raise e, w2)
      end
  | (Raise e, w1) =>
      process_line E line w = (Raise e, w1)
      /\ written w1 = written w
      /\ (net w1 = net w
          \/ net w1 = (net w ++ [Vies_request ("ES" ++ vat) "ES"])%list)
  end.
Proof.
  intros vat H w0.
  pose proof (process_line_eq E line w) as Heq. cbv zeta in Heq.
  fold vat in Heq. fold w0 in Heq.
  rewrite (fmt_of_validate _ _ H) in Heq. simpl truthy in Heq. cbv iota in Heq.
  pose proof (vies_validation_effects E ("ES" ++ vat) "ES" w0) as Heff.
  destruct (vies_validation E ("ES" ++ vat) "ES" w0) as [[[|]|e] w1].
  - exact Heq.
  - destruct (axesor_validation E vat w1) as [[[|]|e] w2]; exact Heq.
  - split; [exact Heq|]. destruct Heff as (Hw & _ & Hn). auto.
Qed.

(** C2, amended: when the ES-prefixed identifier fails the ES format, the
    line is classified by trying GB then DE, a country being accepted
    when its format matches and its remote check is Confirmed; the only
    requests sent are remote checks for a country whose format matched;
    when every check made answers and none accepts, the record has no
    country and the error "Not Found"; a remote check that raises ends
    the line with its error and no record. *)
Theorem other_countries (line : text) (w : world) :
  let vat := normalize line in
  Validator.validate ("ES" ++ vat) "ES" = Ok None ->
  process_line E line w =
    (print ("Processing " ++ vat) ;;;
     c <- first_accepted E ["GB"; "DE"] vat ;;
     write (record_of vat c)) w
  /\ forall ev, In ev (net (snd (process_line E line w))) ->
       In ev (net w)
       \/ exists c, ev = Vies_request vat c /\ In c ["GB"; "DE"]
                    /\ fmt vat c = true.
Proof.
  intros vat H.
  pose proof (process_line_eq E line w) as Heq. cbv zeta in Heq.
  fold vat in Heq.
  rewrite (fmt_of_validate _ _ H) in Heq. simpl truthy in Heq. cbv iota in Heq.
  set (w0 := printed ("Processing " ++ vat) w) in *.
  assert (Hnet0 : net w0 = net w) by reflexivity.
  split.
  - rewrite Heq. clear Heq.
    unfold bind at 1. unfold print. fold w0.
    unfold bind at 1. unfold first_accepted.
    unfold bind at 1. unfold and_then at 1. unfold bind at 1.
    rewrite format_ok_supported by auto.
    destruct (fmt vat "GB").
    + destruct (vies_validation E vat "GB" w0) as [[[|]|e] w1];
        try reflexivity.
      unfold bind at 1. unfold and_then at 1. unfold bind at 1.
      rewrite format_ok_supported by auto.
      destruct (fmt vat "DE"); [|reflexivity].
      destruct (vies_validation E vat "DE" w1) as [[[|]|e] w2]; reflexivity.
    + unfold ret at 1.
      unfold bind at 1. unfold and_then at 1. unfold bind at 1.
      rewrite format_ok_supported by auto.
      destruct (fmt vat "DE"); [|reflexivity].
      destruct (vies_validation E vat "DE" w0) as [[[|]|e] w2]; reflexivity.
  - rewrite Heq. clear Heq. intros ev.
    assert (Hstep : forall c x r x',
               In c ["GB"; "DE"] ->
               (forall ev, In ev (net x) -> In ev (net w)
                  \/ exists c, ev = Vies_request vat c /\ In c ["GB"; "DE"]
                               /\ fmt vat c = true) ->
               (if fmt vat c then vies_validation E vat c x
                else (Ok false, x)) = (r, x') ->
               forall ev, In ev (net x') -> In ev (net w)
                  \/ exists c, ev = Vies_request vat c /\ In c ["GB"; "DE"]
                               /\ fmt vat c = true).
    { intros c x r x' Hc Hx Hr ev' Hev.
      destruct (fmt vat c) eqn:Hf.
      - pose proof (vies_validation_effects E vat c x) as Heff.
        rewrite Hr in Heff. destruct Heff as (_ & _ & [Hn | Hn]);
          rewrite Hn in Hev; [auto|].
        apply in_app_iff in Hev as [Hev | [<- | []]]; [auto|].
        right. exists c. auto.
      - injection Hr as _ <-. auto. }
    assert (H0 : forall ev, In ev (net w0) -> In ev (net w)
                  \/ exists c, ev = Vies_request vat c /\ In c ["GB"; "DE"]
                               /\ fmt vat c = true) by (rewrite Hnet0; auto).
    destruct (if fmt vat "GB" then vies_validation E vat "GB" w0
              else (Ok false, w0)) as [r1 w1] eqn:H1.
    assert (Hw1 := Hstep "GB" w0 r1 w1 (or_introl eq_refl) H0 H1).
    destruct r1 as [[|]|e]; simpl; try apply Hw1.
    destruct (if fmt vat "DE" then vies_validation E vat "DE" w1
              else (Ok false, w1)) as [r2 w2] eqn:H2.
    assert (Hw2 := Hstep "DE" w1 r2 w2 (or_intror (or_introl eq_refl)) Hw1 H2).
    destruct r2 as [[|]|e]; simpl; apply Hw2.
Qed.

End Branches.

Section Branches_examples.

Local Existing Instance plain.

Lemma es_branch_witness :
  let E := env_of (inr false) (inr 200%Z) in
  let line := "b1234 5678" ++ NL in
  Validator.validate ("ES" ++ normalize line) "ES" = Ok (Some 11)
  /\ process_line E line (start E)
     = (Ok tt,
        wrote ("B12345678,ES,Not Found" ++ NL)
          (snd (axesor_validation E "B12345678"
             (snd (vies_validation E "ESB12345678" "ES"
                (printed "Processing B12345678" (start E))))))).
Proof.
  split; [reflexivity|].
  exact (es_branch (env_of (inr false) (inr 200%Z)) ("b1234 5678" ++ NL)
           (start (env_of (inr false) (inr 200%Z))) (k := 11) eq_refl).
Defined.

Lemma other_countries_witness :
  let E := env_of (inr true) (inr 200%Z) in
  let line := "gb gd123" ++ NL in
  Validator.validate ("ES" ++ normalize line) "ES" = Ok None
  /\ process_line E line (start E)
     = (print "Processing GBGD123" ;;;
        c <- first_accepted E ["GB"; "DE"] "GBGD123" ;;
        write (record_of "GBGD123" c)) (start E)
  /\ written (snd (process_line E line (start E))) = ["GBGD123,GB," ++ NL].
Proof.
  split; [reflexivity|]. split; [|reflexivity].
  exact (proj1 (other_countries (env_of (inr true) (inr 200%Z))
                  ("gb gd123" ++ NL)
                  (start (env_of (inr true) (inr 200%Z))) eq_refl)).
Defined.

(** C1, as stated, fails: with VIES unavailable, an identifier of ES
    format gets no fallback call and no record; the error goes up. *)
Lemma unavailable_skips_fallback :
  let line := "B12345678" ++ NL in
  let '(r, w') := process_line vies_down line (start vies_down) in
  Validator.validate ("ES" ++ normalize line) "ES" = Ok (Some 11)
  /\ r = Raise (Foreign "ViesHTTPError")
  /\ net w' = [Vies_request "ESB12345678" "ES"]
  /\ written w' = [].
Proof. repeat split. Qed.

(** C2, as stated, fails: with VIES unavailable, an identifier of GB
    format, for which no country is confirmed, gets no record at all
    rather than one with an empty country and "Not Found". *)
Lemma unavailable_gives_no_record :
  let line := "GBGD123" ++ NL in
  let '(r, w') := process_line vies_down line (start vies_down) in
  Validator.validate ("ES" ++ normalize line) "ES" = Ok None
  /\ Validator.validate (normalize line) "GB" = Ok (Some 7)
  /\ r = Raise (Foreign "ViesHTTPError")
  /\ written w' = [].
Proof. repeat split. Qed.

End Branches_examples.

(** ** The lines that [readlines] yields *)

Lemma no_lf_lf_only_trailing (s : text) :
  has LF s = false -> lf_only_trailing s = true.
Proof.
  induction s as [|a s IH]; simpl; [reflexivity|].
  intros H. apply orb_false_iff in H as [Ha Hs]. rewrite Ha. auto.
Qed.

Lemma lf_only_trailing_line (s : text) :
  has LF s = false -> lf_only_trailing (s ++ NL) = true.
Proof.
  induction s as [|a s IH]; simpl; [reflexivity|].
  intros H. apply orb_false_iff in H as [Ha Hs]. rewrite Ha. auto.
Qed.

Lemma split_lines_lf_only (s cur : text) :
  has LF cur = false ->
  Forall (fun l => lf_only_trailing l = true) (split_lines cur s).
Proof.
  revert cur. induction s as [|a s IH]; intros cur Hcur; simpl.
  - destruct cur; constructor; [|constructor].
    now apply no_lf_lf_only_trailing.
  - destruct (N.eqb a LF) eqn:Ha.
    + constructor; [now apply lf_only_trailing_line | now apply IH].
    + apply IH. rewrite has_app, Hcur. simpl. now rewrite Ha.
Qed.

(** A line of the source file has its newline, if any, at its end. *)
Lemma readlines_lf_only (content line : text) :
  In line (readlines content) -> lf_only_trailing line = true.
Proof.
  intros H. unfold readlines in H.
  pose proof (split_lines_lf_only (universal_newlines content) "" eq_refl)
    as Hall.
  rewrite Forall_forall in Hall. auto.
Qed.

(** ** Blank lines *)

Lemma rstrip_blank (s : text) :
  lf_only_trailing s = true -> only_blank s = true ->
  spaces_stars (rstrip LF s) = true.
Proof.
  induction s as [|a s IH]; simpl; [reflexivity|].
  intros Hl Hb. apply andb_true_iff in Hb as [Ha Hb].
  destruct (N.eqb a LF) eqn:Hlf.
  - now rewrite (rstrip_all_lf _ Hl).
  - rewrite orb_false_r in Ha. specialize (IH Hl Hb).
    destruct (rstrip LF s); simpl in *; rewrite Ha; auto.
Qed.

Lemma remove_spaces_stars (s : text) :
  spaces_stars s = true -> remove_char STAR (remove_char SP s) = "".
Proof.
  induction s as [|a s IH]; simpl; [reflexivity|].
  intros H. apply andb_true_iff in H as [Ha Hs].
  destruct (N.eqb a SP) eqn:Hsp; [auto|].
  simpl in *. rewrite Ha. auto.
Qed.

Section Blank.

Context {U : unicode}.

Lemma normalize_blank (line : text) :
  lf_only_trailing line = true -> only_blank line = true ->
  normalize line = "".
Proof.
  intros Hl Hb. unfold normalize.
  now rewrite (remove_spaces_stars _ (rstrip_blank _ Hl Hb)).
Qed.

(** C10: a line of the source file made only of spaces, stars and its
    newline (and the empty line) is classified without any remote call:
    nothing is sent, and the record written is exactly [",,Not Found"]. *)
Theorem blank_line_no_remote_call (E : env) (content line : text)
    (w : world) :
  line = "" \/ In line (readlines content) ->
  only_blank line = true ->
  let '(r, w') := process_line E line w in
  r = Ok tt
  /\ net w' = net w
  /\ breaker w' = breaker w
  /\ written w' = (written w ++ [(",,Not Found" ++ NL)%text])%list.
Proof.
  intros Hin Hb.
  assert (Hl : lf_only_trailing line = true)
    by (destruct Hin as [-> | Hin];
        [reflexivity | eapply readlines_lf_only; eassumption]).
  pose proof (normalize_blank _ Hl Hb) as Hn.
  rewrite process_line_eq. cbv zeta. rewrite Hn.
  change (fmt ("ES" ++ "") "ES") with false.
  change (fmt "" "GB") with false.
  change (fmt "" "DE") with false.
  cbv iota. repeat split.
Qed.

End Blank.

Section Blank_examples.

Local Existing Instance plain.

Lemma blank_line_no_remote_call_witness :
  let E := env_of (inr true) (inr 302%Z) in
  let content := "B12345678" ++ NL ++ " * *  " ++ NL ++ "X" in
  In (" * *  " ++ NL) (readlines content)
  /\ only_blank (" * *  " ++ NL) = true
  /\ let '(r, w') := process_line E (" * *  " ++ NL) (start E) in
     r = Ok tt /\ net w' = [] /\ breaker w' = breaker (start E)
     /\ written w' = [",,Not Found" ++ NL].
Proof.
  assert (Hin : In (" * *  " ++ NL)
                  (readlines ("B12345678" ++ NL ++ " * *  " ++ NL ++ "X")))
    by (right; left; reflexivity).
  split; [exact Hin|]. split; [reflexivity|].
  exact (@blank_line_no_remote_call plain (env_of (inr true) (inr 302%Z))
           ("B12345678" ++ NL ++ " * *  " ++ NL ++ "X") (" * *  " ++ NL)
           (start (env_of (inr true) (inr 302%Z))) (or_intror Hin) eq_refl).
Defined.

End Blank_examples.

(** ** What a line can lead to *)

Section Forms.

Context {U : unicode}.

Lemma demands_has eol c r :
  demands c r = true ->
  forall n m post, matches eol r n m post -> has c m = true.
Proof.
  induction r as [|cs| | |a IHa b IHb|a IHa b IHb|a IHa lo hi];
    simpl; try discriminate; intros Hd n m post H.
  - destruct cs as [|[a| |] [|]]; try discriminate.
    destruct H as (x & -> & Hx). simpl in *.
    rewrite orb_false_r in Hx. apply N.eqb_eq in Hx. subst x.
    now rewrite Hd.
  - destruct H as (m1 & m2 & -> & Ha & Hb). rewrite has_app.
    apply orb_true_iff in Hd as [Hd | Hd].
    + now rewrite (IHa Hd _ _ _ Ha).
    + rewrite (IHb Hd _ _ _ Hb). apply orb_true_r.
  - apply andb_true_iff in Hd as [Hda Hdb]. destruct H; eauto.
  - apply andb_true_iff in Hd as [Hlo Hd].
    destruct H as (k & Hk & Hr).
    destruct k as [|k]; [destruct lo; [discriminate | lia]|].
    simpl in Hr. destruct Hr as (m1 & m2 & -> & Ha & _).
    rewrite has_app. now rewrite (IHa Hd _ _ _ Ha).
Qed.

Lemma one_lit eol a n m post :
  matches eol (One [Lit a]) n m post -> m = [a].
Proof.
  intros (x & -> & Hx). simpl in Hx. rewrite orb_false_r in Hx.
  apply N.eqb_eq in Hx. now subst.
Qed.

Lemma gb_form (s : text) :
  has SP s = false -> has LF s = false ->
  fmt s "GB" = true ->
  exists p d1 d2 d3,
    (p = "GD" \/ p = "HA")
    /\ decimal d1 = true /\ decimal d2 = true /\ decimal d3 = true
    /\ s = "GB" ++ p ++ [d1; d2; d3].
Proof.
  intros Hsp Hlf H. unfold fmt, Validator.validate in H.
  destruct (lookup "GB" Validator.vat_number_regexps) as [r|] eqn:Hr;
    [|discriminate].
  vm_compute in Hr. injection Hr as <-.
  apply truthy_re_match in H. destruct H as (q & Hq).
  apply run_with_computes in Hq. destruct Hq as (m & Hs & _ & Hm).
  destruct Hm as (m0 & m1 & -> & [-> _] & Hm).
  destruct Hm as (m1' & m2 & -> & Hgb & Hm).
  destruct Hgb as (g & b & -> & Hg & Hb).
  apply one_lit in Hg, Hb. subst g b.
  destruct Hm as (body & e & -> & Hbody & [-> He]).
  simpl in Hs. rewrite sapp_nil_r in Hs. subst s.
  simpl in Hsp, Hlf. rewrite has_app in Hsp, Hlf.
  apply orb_false_iff in Hsp as [Hsp _], Hlf as [_ Hlf].
  assert (Hq : snd q = "").
  { destruct (snd q) as [|c [|c' t]]; simpl in *; try discriminate; auto.
    rewrite orb_false_r in Hlf. congruence. }
  destruct Hbody as [Hb | [Hb | Hb]].
  - apply (demands_has at_eol SP) in Hb; [congruence | reflexivity].
  - apply (demands_has at_eol SP) in Hb; [congruence | reflexivity].
  - destruct Hb as (p & ds & -> & Hp & (k & Hk & Hds)).
    assert (k = 3) by lia. subst k. simpl in Hds.
    destruct Hds as (x1 & r1 & -> & (d1 & -> & Hd1)
                     & x2 & r2 & -> & (d2 & -> & Hd2)
                     & x3 & r3 & -> & (d3 & -> & Hd3) & ->).
    rewrite orb_false_r in Hd1, Hd2, Hd3.
    exists p, d1, d2, d3. rewrite Hq. simpl. rewrite sapp_nil_r.
    repeat split; try assumption.
    destruct Hp as [(g & b & -> & Hg & Hb) | (g & b & -> & Hg & Hb)];
      apply one_lit in Hg, Hb; subst; auto.
Qed.

End Forms.

Section Steps.

Context {U : unicode}.
Variable E : env.

Lemma vies_step (v c : text) (x : world) :
  let '(r, x') := vies_validation E v c x in
  written x' = written x
  /\ (closed x -> closed x' /\ forall e, r = Raise e -> remote_failure e).
Proof.
  pose proof (vies_validation_effects E v c x) as Heff.
  pose proof (vies_validation_closed E v c (w := x)) as Hc.
  destruct (vies_validation E v c x) as [r x'].
  destruct Heff as (Hw & _ & _). split; [assumption|].
  intros Hx. specialize (Hc Hx). injection Hc as -> ->.
  split; [reflexivity|].
  intros e He. destruct (vies_reply E (length (net x)) v c); simpl in He;
    [|discriminate].
  injection He as <-. right. eauto.
Qed.

Lemma axesor_step (v : text) (x : world) :
  let '(r, x') := axesor_validation E v x in
  written x' = written x /\ breaker x' = breaker x
  /\ forall e, r = Raise e -> remote_failure e.
Proof.
  rewrite axesor_validation_eq. repeat split.
  intros e He.
  destruct (http_reply E (length (net x)) (axesor_url v)) as [name|st].
  - injection He as <-. right. eauto.
  - destruct (st =? 200)%Z; [discriminate|].
    destruct (st =? 302)%Z; [discriminate|].
    injection He as <-. now left.
Qed.

Lemma guarded_step (v c : text) (x : world) :
  let '(r, x') := (if fmt v c then vies_validation E v c x else (Ok false, x)) in
  written x' = written x
  /\ (r = Ok true -> fmt v c = true)
  /\ (closed x -> closed x' /\ forall e, r = Raise e -> remote_failure e).
Proof.
  destruct (fmt v c).
  - pose proof (vies_step v c x) as H.
    destruct (vies_validation E v c x) as [r x']. intuition.
  - repeat split; try discriminate; auto.
Qed.

Lemma process_line_outcome (line : text) (w : world) :
  let vat := normalize line in
  let '(r, w') := process_line E line w in
  match r with
  | Ok _ =>
      exists country err,
        written w'
        = (written w ++ [(vat ++ "," ++ country ++ "," ++ err ++ NL)%text])%list
        /\ classified vat country err
  | Raise e => written w' = written w /\ (closed w -> remote_failure e)
  end
  /\ (closed w -> closed w').
Proof.
  intros vat. rewrite process_line_eq. cbv zeta. fold vat.
  set (w0 := printed ("Processing " ++ vat) w).
  assert (Hw0 : written w0 = written w) by reflexivity.
  assert (Hc0 : closed w -> closed w0) by auto.
  unfold classified.
  destruct (fmt ("ES" ++ vat) "ES") eqn:Hes.
  - pose proof (vies_step ("ES" ++ vat) "ES" w0) as H1.
    destruct (vies_validation E ("ES" ++ vat) "ES" w0) as [[[|]|e] w1];
      destruct H1 as (Hw1 & Hc1).
    + split; [|intros Hc; apply Hc1; auto].
      exists "ES", "". simpl. rewrite Hw1, Hw0.
      split; [reflexivity|]. left. auto.
    + pose proof (axesor_step vat w1) as H2.
      destruct (axesor_validation E vat w1) as [[[|]|e] w2];
        destruct H2 as (Hw2 & Hb2 & He2).
      * split; [|intros Hc; unfold closed; simpl; rewrite Hb2; apply Hc1; auto].
        exists "ES", "". simpl. rewrite Hw2, Hw1, Hw0.
        split; [reflexivity|]. left. auto.
      * split; [|intros Hc; unfold closed; simpl; rewrite Hb2; apply Hc1; auto].
        exists "ES", "Not Found". simpl. rewrite Hw2, Hw1, Hw0.
        split; [reflexivity|]. left. auto.
      * split; [|intros Hc; unfold closed; rewrite Hb2; apply Hc1; auto].
        split; [congruence | auto].
    + split; [|intros Hc; apply Hc1; auto].
      split; [congruence|]. intros Hc. apply (Hc1 (Hc0 Hc)). reflexivity.
  - pose proof (guarded_step vat "GB" w0) as H1.
    destruct (if fmt vat "GB" then vies_validation E vat "GB" w0
              else (Ok false, w0)) as [[[|]|e] w1];
      destruct H1 as (Hw1 & Hf1 & Hc1).
    + split; [|intros Hc; apply Hc1; auto].
      exists "GB", "". simpl. rewrite Hw1, Hw0. split; [reflexivity|].
      right. left. auto.
    + pose proof (guarded_step vat "DE" w1) as H2.
      destruct (if fmt vat "DE" then vies_validation E vat "DE" w1
                else (Ok false, w1)) as [[[|]|e] w2];
        destruct H2 as (Hw2 & Hf2 & Hc2).
      * split; [|intros Hc; apply Hc2, Hc1; auto].
        exists "DE", "". simpl. rewrite Hw2, Hw1, Hw0. split; [reflexivity|].
        right. right. left. auto.
      * split; [|intros Hc; apply Hc2, Hc1; auto].
        exists "", "Not Found". simpl. rewrite Hw2, Hw1, Hw0.
        split; [reflexivity|]. right. right. right. auto.
      * split; [|intros Hc; apply Hc2, Hc1; auto].
        split; [congruence|]. intros Hc.
        apply (Hc2 (proj1 (Hc1 (Hc0 Hc)))). reflexivity.
    + split; [|intros Hc; apply Hc1; auto].
      split; [congruence|]. intros Hc. apply (Hc1 (Hc0 Hc)). reflexivity.
Qed.
End Steps.

Section Gb.

Context {U : unicode}.

(** C9: when a line of the source file is classified as GB (its record
    is the GB one), the normalized identifier is GB, then GD or HA, then
    three digits: normalising took every space away, so the two
    alternatives of the GB pattern that hold a space cannot match. *)
Theorem gb_only_gd_or_ha (E : env) (content line : text) (w : world) :
  In line (readlines content) ->
  written (snd (process_line E line w))
  = (written w ++ [(normalize line ++ ",GB," ++ NL)%text])%list ->
  exists p d1 d2 d3,
    (p = "GD" \/ p = "HA")
    /\ decimal d1 = true /\ decimal d2 = true /\ decimal d3 = true
    /\ normalize line = "GB" ++ p ++ [d1; d2; d3].
Proof.
  intros Hin Hrow.
  pose proof (process_line_outcome E line w) as Hout. cbv zeta in Hout.
  destruct (process_line E line w) as [[[]|e] w']; simpl in Hrow;
    destruct Hout as (Hout & _).
  - destruct Hout as (country & err & Hw & Hcl).
    rewrite Hw in Hrow. apply app_inv_head in Hrow.
    injection Hrow as Hrow. apply sapp_inv_head in Hrow.
    destruct Hcl as [(-> & _) | [(-> & -> & _ & Hgb)
                    | [(-> & _) | (-> & -> & _)]]];
      try discriminate.
    apply gb_form; [apply normalize_no_space | | assumption].
    apply normalize_no_newline. eapply readlines_lf_only; eassumption.
  - destruct Hout as (Hw & _). rewrite Hw in Hrow.
    apply (f_equal (@length text)) in Hrow.
    rewrite length_app in Hrow. simpl in Hrow. lia.
Qed.

End Gb.

Section Gb_examples.

Local Existing Instance plain.

Lemma gb_only_gd_or_ha_witness :
  let E := env_of (inr true) (inr 200%Z) in
  let content := "gb ha 123" ++ NL ++ "X" in
  In ("gb ha 123" ++ NL) (readlines content)
  /\ written (snd (process_line E ("gb ha 123" ++ NL) (start E)))
     = ["GBHA123,GB," ++ NL]
  /\ exists p d1 d2 d3,
       (p = "GD" \/ p = "HA")
       /\ decimal d1 = true /\ decimal d2 = true /\ decimal d3 = true
       /\ normalize ("gb ha 123" ++ NL) = "GB" ++ p ++ [d1; d2; d3].
Proof.
  assert (Hin : In ("gb ha 123" ++ NL)
                  (readlines ("gb ha 123" ++ NL ++ "X")))
    by (left; reflexivity).
  split; [exact Hin|]. split; [reflexivity|].
  exact (@gb_only_gd_or_ha plain (env_of (inr true) (inr 200%Z))
           ("gb ha 123" ++ NL ++ "X") ("gb ha 123" ++ NL)
           (start (env_of (inr true) (inr 200%Z))) Hin eq_refl).
Defined.

End Gb_examples.

(** ** The whole batch *)

Section Batch.

Context {U : unicode}.

Lemma classified_record (line country err : text) :
  classified (normalize line) country err ->
  record_for line (normalize line ++ "," ++ country ++ "," ++ err ++ NL).
Proof.
  intros H. exists country, err. split; [|reflexivity].
  unfold classifications.
  destruct H as [(-> & [-> | ->] & _) | [(-> & -> & _)
                | [(-> & -> & _) | (-> & -> & _)]]]; simpl; auto 6.
Qed.

End Batch.

(** ** The circuit breaker of [vies_validation] *)

(** C4: however the calls of [vies_validation] fare, its circuit never
    opens: what the VIES request raises is not an [HTTPError], the only
    exception the decorator counts, so after any number of failed calls
    the breaker is closed with no failure counted, no call was refused
    and every call sent its request. *)
Theorem vies_circuit_never_opens (E : env) (v c : text) (n : nat) :
  let '(r, w') := repeatedly n (vies_validation E v c) (start E) in
  closed w' /\ failure_count (breaker w') = 0
  /\ length (net w') = n
  /\ exists rs, r = Ok rs /\ length rs = n
                /\ ~ In (Raise CircuitBreakerError) rs.
Proof.
  assert (H : forall w, closed w -> failure_count (breaker w) = 0 ->
            let '(r, w') := repeatedly n (vies_validation E v c) w in
            closed w' /\ failure_count (breaker w') = 0
            /\ length (net w') = length (net w) + n
            /\ exists rs, r = Ok rs /\ length rs = n
                          /\ ~ In (Raise CircuitBreakerError) rs).
  { induction n as [|k IH]; intros w Hc Hf; simpl.
    - repeat split; auto. exists []. auto.
    - unfold bind at 1. unfold attempt.
      rewrite (vies_validation_closed E v c Hc).
      set (w1 := reset (send (Vies_request v c) w)).
      specialize (IH w1 eq_refl eq_refl). unfold bind at 1.
      destruct (repeatedly k (vies_validation E v c) w1) as [r w'].
      destruct IH as (Hc' & Hf' & Hn & rs & -> & Hl & Hin).
      unfold ret. repeat split; auto.
      + rewrite Hn. unfold w1. simpl. rewrite length_app. simpl. lia.
      + eexists. split; [reflexivity|]. split; [simpl; congruence|].
        intros [Hbad | Hbad]; [|auto].
        destruct (vies_reply E (length (net w)) v c); discriminate. }
  apply (H (start E)); reflexivity.
Qed.

(** At the failing input: five calls in a row on which VIES cannot be
    reached, and a sixth at once.  The sixth still sends its request. *)
Example sixth_call_still_sends :
  let f := vies_validation vies_down "ESB12345678" "ES" in
  let '(rs, w5) := repeatedly 5 f (start vies_down) in
  let '(r6, w6) := f w5 in
  rs = Ok (repeat (Raise (Foreign "ViesHTTPError")) 5)
  /\ breaker w5 = mkCB STATE_CLOSED 0 0 None
  /\ r6 = Raise (Foreign "ViesHTTPError")
  /\ net w6 = repeat (Vies_request "ESB12345678" "ES") 6.
Proof. repeat split. Qed.

(** The breaker does open on exceptions it expects.  The clock advances
    by one at each reading.  Five failures open the circuit; the nine
    calls that follow are refused without running the function; the
    tenth is the trial.  With the service still down the trial fails and
    the circuit opens again from that moment; with the service back it
    succeeds, and the circuit is closed with no failure counted. *)
Example circuit_opens_on_expected_failures :
  let E := env_of (inr true) (inr 200%Z) in
  let '(down, w) :=
    repeatedly 16 (circuit E 5 10 is_HTTPError (probe 100)) (start E) in
  let '(back, w') :=
    repeatedly 16 (circuit E 5 10 is_HTTPError (probe 5)) (start E) in
  down = Ok (repeat (Raise (HTTPError "down")) 5
             ++ repeat (Raise CircuitBreakerError) 9
             ++ [Raise (HTTPError "down"); Raise CircuitBreakerError])%list
  /\ length (net w) = 6
  /\ breaker w = mkCB STATE_OPEN 6 12 (Some (HTTPError "down"))
  /\ back = Ok (repeat (Raise (HTTPError "down")) 5
                ++ repeat (Raise CircuitBreakerError) 9
                ++ [Ok true; Ok true])%list
  /\ length (net w') = 7
  /\ breaker w' = mkCB STATE_CLOSED 0 1 None.
Proof. vm_compute. repeat split. Qed.

(** * Further properties of the code *)

Section Further.

Context {U : unicode}.

Lemma lead_matches eol (r : regex) :
  forall n m post,
    matches eol r n m post ->
    (exists m', m = fst (lead r) ++ m')
    /\ (snd (lead r) = true -> m = fst (lead r)).
Proof.
  induction r as [|cs| | |a IHa b IHb|a IHa b IHb|a IHa lo hi];
    intros n m post H; simpl in *.
  - subst. split; [now exists ""|auto].
  - destruct H as (x & -> & Hx).
    destruct cs as [|[c| |] [|]]; simpl; try (split; [eauto|discriminate]).
    simpl in Hx. rewrite orb_false_r in Hx. apply N.eqb_eq in Hx.
    subst x. split; [now exists ""|auto].
  - destruct H as [-> _]. split; [now exists ""|auto].
  - destruct H as [-> _]. split; [now exists ""|auto].
  - destruct H as (m1 & m2 & -> & Ha & Hb).
    destruct (IHa _ _ _ Ha) as ((m1' & Hm1) & Hfa).
    destruct (IHb _ _ _ Hb) as ((m2' & Hm2) & Hfb).
    destruct (lead a) as [pa fa], (lead b) as [pb fb]. simpl in *.
    destruct fa; simpl.
    + rewrite (Hfa eq_refl). split.
      * exists m2'. now rewrite Hm2, sapp_assoc.
      * intros Hf. now rewrite (Hfb Hf).
    + split; [|discriminate]. exists (m1' ++ m2). now rewrite Hm1, sapp_assoc.
  - split; [eauto|discriminate].
  - split; [eauto|discriminate].
Qed.

Lemma prefix_app (p s t : text) :
  prefix p s = true -> prefix p (s ++ t) = true.
Proof.
  revert p. induction s as [|b s IH]; intros [|a p]; simpl;
    try discriminate; try reflexivity.
  intros H. apply andb_true_iff in H as [-> H]. simpl. now apply IH.
Qed.

Lemma prefix_same_length (p q s : text) :
  prefix p s = true -> prefix q s = true ->
  length p = length q -> p = q.
Proof.
  revert q s. induction p as [|a p IH]; intros [|b q] [|c s]; simpl;
    try discriminate; auto.
  intros Hp Hq Hl.
  apply andb_true_iff in Hp as [Ha Hp], Hq as [Hb Hq].
  apply N.eqb_eq in Ha, Hb. subst. f_equal. eapply IH; eauto.
Qed.

Lemma re_match_matches (r : regex) (s : text) :
  truthy (re_match r s) = true ->
  exists m post, s = m ++ post /\ matches at_eol r 0 m post.
Proof.
  intros H. apply truthy_re_match in H. destruct H as (q & Hq).
  apply run_with_computes in Hq. destruct Hq as (m & Hs & _ & Hm). eauto.
Qed.

Lemma matches_re_match (r : regex) (m post : text) :
  matches at_eol r 0 m post -> truthy (re_match r (m ++ post)) = true.
Proof.
  intros H. apply truthy_re_match. exists (length m, post).
  apply run_with_computes. exists m. simpl. auto.
Qed.

Lemma registry_forall (P : text -> regex -> bool) (c : text) (r : regex) :
  forallb (fun kv => P (fst kv) (snd kv)) Validator.vat_number_regexps = true ->
  lookup c Validator.vat_number_regexps = Some r -> P c r = true.
Proof.
  intros Hall H. apply lookup_In in H.
  rewrite forallb_forall in Hall. apply (Hall _ H).
Qed.

Lemma accepted_begins_with_code (c : text) (r : regex) (s : text) :
  lookup c Validator.vat_number_regexps = Some r ->
  truthy (re_match r s) = true ->
  length c = 2 /\ prefix c s = true.
Proof.
  intros Hr H.
  pose proof (@registry_forall
    (fun c r => Nat.eqb (length c) 2 && prefix c (fst (lead r)))
    c r eq_refl Hr) as Hc.
  apply andb_true_iff in Hc as [Hlen Hpre]. apply Nat.eqb_eq in Hlen.
  split; [assumption|].
  destruct (@re_match_matches _ _ H) as (m & post & -> & Hm).
  destruct (@lead_matches _ _ _ _ _ Hm) as ((m' & ->) & _).
  now apply prefix_app, prefix_app.
Qed.

Lemma validate_truthy (s c : text) (m : option nat) :
  Validator.validate s c = Ok m -> truthy m = true ->
  exists r, lookup c Validator.vat_number_regexps = Some r
            /\ truthy (re_match r s) = true.
Proof.
  unfold Validator.validate.
  destruct (lookup c Validator.vat_number_regexps) as [r|]; [|discriminate].
  intros [= <-] H. eauto.
Qed.

(** X4: an identifier that has the format of a country begins with the
    two letters of that country's code. *)
Theorem accepted_starts_with_code (s c : text) (m : option nat) :
  Validator.validate s c = Ok m -> truthy m = true ->
  length c = 2 /\ prefix c s = true.
Proof.
  intros H T. destruct (@validate_truthy _ _ _ H T) as (r & L & M).
  exact (@accepted_begins_with_code _ _ _ L M).
Qed.

(** X5: an identifier has the format of one country at most. *)
Theorem one_country_at_most (s c1 c2 : text) (m1 m2 : option nat) :
  Validator.validate s c1 = Ok m1 -> truthy m1 = true ->
  Validator.validate s c2 = Ok m2 -> truthy m2 = true ->
  c1 = c2.
Proof.
  intros H1 T1 H2 T2.
  destruct (@validate_truthy _ _ _ H1 T1) as (r1 & L1 & M1).
  destruct (@validate_truthy _ _ _ H2 T2) as (r2 & L2 & M2).
  destruct (@accepted_begins_with_code _ _ _ L1 M1) as [N1 P1].
  destruct (@accepted_begins_with_code _ _ _ L2 M2) as [N2 P2].
  eapply prefix_same_length; eauto. congruence.
Qed.

Lemma rounds_length (L : nat -> text -> text -> Prop) lo hi :
  (forall n m post, L n m post -> lo <= length m <= hi) ->
  forall k n m post, rounds L k n m post ->
    k * lo <= length m <= k * hi.
Proof.
  intros HL. induction k as [|k IH]; intros n m post H; simpl in *.
  - subst. simpl. lia.
  - destruct H as (m1 & m2 & -> & H1 & H2). rewrite slength_app.
    specialize (HL _ _ _ H1). specialize (IH _ _ _ H2). lia.
Qed.

Lemma matches_length eol (r : regex) :
  forall n m post, matches eol r n m post ->
    minlen r <= length m <= maxlen r.
Proof.
  induction r as [|cs| | |a IHa b IHb|a IHa b IHb|a IHa lo hi];
    intros n m post H; simpl in *.
  - subst. simpl. lia.
  - destruct H as (x & -> & _). simpl. lia.
  - destruct H as [-> _]. simpl. lia.
  - destruct H as [-> _]. simpl. lia.
  - destruct H as (m1 & m2 & -> & Ha & Hb). rewrite slength_app.
    specialize (IHa _ _ _ Ha). specialize (IHb _ _ _ Hb). lia.
  - destruct H as [H | H]; [specialize (IHa _ _ _ H) | specialize (IHb _ _ _ H)]; lia.
  - destruct H as (k & Hk & Hr).
    pose proof (@rounds_length _ _ _ IHa _ _ _ _ Hr) as Hlen. nia.
Qed.

Lemma at_eol_length (post : text) :
  at_eol post = true -> length post <= 1.
Proof. destruct post as [|c [|c' t]]; simpl; try discriminate; lia. Qed.

Lemma re_match_length (c : text) (r : regex) (s : text) :
  lookup c Validator.vat_number_regexps = Some r ->
  truthy (re_match r s) = true ->
  minlen r <= length s <= maxlen r + 1
  /\ 4 <= length s <= 18.
Proof.
  intros Hr H.
  pose proof (@registry_forall
    (fun _ r => Nat.leb 4 (minlen r) && Nat.leb (maxlen r) 17)
    c r eq_refl Hr) as Hb.
  apply andb_true_iff in Hb as [Hlo Hhi].
  apply Nat.leb_le in Hlo, Hhi.
  destruct (@re_match_matches _ _ H) as (m & post & -> & Hm).
  pose proof (@matches_length _ _ _ _ _ Hm) as Hlen.
  pose proof (@closes_eol _ _ _ (@vat_number_regexps_close _ _ Hr) _ _ _ Hm) as He.
  apply at_eol_length in He. rewrite slength_app. lia.
Qed.

(** X6: an identifier that has the format of a country is 4 to 18
    characters long, and within the bounds of that country's pattern
    (one more for a final newline). *)
Theorem accepted_length_bounds (s c : text) (m : option nat) :
  Validator.validate s c = Ok m -> truthy m = true ->
  4 <= length s <= 18
  /\ exists r, lookup c Validator.vat_number_regexps = Some r
               /\ minlen r <= length s <= maxlen r + 1.
Proof.
  intros H T. destruct (@validate_truthy _ _ _ H T) as (r & L & M).
  destruct (@re_match_length _ _ _ L M) as [Hr Hall].
  split; [exact Hall|]. exists r. auto.
Qed.

Lemma avoids_has eol (c : char) (r : regex) :
  is_ascii c = true -> avoids c r = true ->
  forall n m post, matches eol r n m post -> has c m = false.
Proof.
  intros Hc.
  induction r as [|cs| | |a IHa b IHb|a IHa b IHb|a IHa lo hi];
    simpl; intros Hav n m post H.
  - now subst.
  - destruct H as (x & -> & Hx). simpl. rewrite orb_false_r.
    destruct (N.eqb_spec x c) as [-> | _]; [|reflexivity].
    rewrite (existsb_item_mem_ascii _ _ Hc) in Hx. now rewrite Hx in Hav.
  - now destruct H as [-> _].
  - now destruct H as [-> _].
  - apply andb_true_iff in Hav as [Ha Hb].
    destruct H as (m1 & m2 & -> & H1 & H2). rewrite has_app.
    now rewrite (IHa Ha _ _ _ H1), (IHb Hb _ _ _ H2).
  - apply andb_true_iff in Hav as [Ha Hb]. destruct H; eauto.
  - destruct H as (k & _ & Hr). revert n m Hr.
    induction k as [|k IHk]; intros n m Hr; simpl in Hr.
    + now subst.
    + destruct Hr as (m1 & m2 & -> & H1 & H2). rewrite has_app.
      now rewrite (IHa Hav _ _ _ H1), (IHk _ _ H2).
Qed.

Lemma at_eol_newline (post : text) :
  ends_with LF post = false ->
  at_eol post = at_eol (post ++ NL).
Proof. destruct post as [|c [|c' t]]; simpl; auto. Qed.

Lemma rounds_newline (L : nat -> text -> text -> Prop) :
  (forall n m post, ends_with LF (m ++ post) = false ->
                    (L n m post <-> L n m (post ++ NL))) ->
  forall k n m post,
    ends_with LF (m ++ post) = false ->
    (rounds L k n m post <-> rounds L k n m (post ++ NL)).
Proof.
  intros HL. induction k as [|k IH]; intros n m post Hm; simpl; [tauto|].
  split; intros (m1 & m2 & -> & H1 & H2); exists m1, m2;
    rewrite sapp_assoc in Hm; (split; [reflexivity|]); split.
  - rewrite <- sapp_assoc. now apply (proj1 (HL _ _ _ Hm)).
  - apply (proj1 (IH _ _ _ (ends_with_app _ _ _ Hm))). assumption.
  - rewrite <- sapp_assoc in H1. now apply (proj2 (HL _ _ _ Hm)).
  - apply (proj2 (IH _ _ _ (ends_with_app _ _ _ Hm))). assumption.
Qed.

(** A newline put after the text changes nothing to a match within a
    text that did not end with one. *)
Lemma matches_newline (r : regex) :
  forall n m post,
    ends_with LF (m ++ post) = false ->
    (matches at_eol r n m post <-> matches at_eol r n m (post ++ NL)).
Proof.
  induction r as [|cs| | |a IHa b IHb|a IHa b IHb|a IHa lo hi];
    intros n m post Hm; simpl; try tauto.
  - split; intros [-> H]; simpl in Hm; (split; [reflexivity|]).
    + now rewrite <- at_eol_newline.
    + now rewrite at_eol_newline.
  - split; intros (m1 & m2 & -> & H1 & H2); exists m1, m2;
      rewrite sapp_assoc in Hm; (split; [reflexivity|]); split.
    + rewrite <- sapp_assoc. now apply (proj1 (IHa _ _ _ Hm)).
    + apply (proj1 (IHb _ _ _ (ends_with_app _ _ _ Hm))). assumption.
    + rewrite <- sapp_assoc in H1. now apply (proj2 (IHa _ _ _ Hm)).
    + apply (proj2 (IHb _ _ _ (ends_with_app _ _ _ Hm))). assumption.
  - rewrite (IHa n m post Hm), (IHb n m post Hm). tauto.
  - split; intros (k & Hk & H); exists k; (split; [assumption|]).
    + now apply (proj1 (rounds_newline _ IHa _ _ _ _ Hm)).
    + now apply (proj2 (rounds_newline _ IHa _ _ _ _ Hm)).
Qed.

Lemma sapp_inv_tail (s t u : text) : s ++ u = t ++ u -> s = t.
Proof.
  revert t. induction s as [|a s IH]; intros [|b t] H; simpl in *; auto.
  - exfalso. apply (f_equal (@length char)) in H. simpl in H.
    rewrite slength_app in H. lia.
  - exfalso. apply (f_equal (@length char)) in H. simpl in H.
    rewrite slength_app in H. lia.
  - injection H as -> H. f_equal. auto.
Qed.

Lemma at_eol_cases (post : text) :
  at_eol post = true -> post = "" \/ post = NL.
Proof.
  destruct post as [|c [|c' t]]; simpl; try discriminate; auto.
  intros H. apply N.eqb_eq in H. subst. now right.
Qed.

Lemma re_match_newline (r : regex) (s : text) :
  closes r = true -> avoids LF r = true -> ends_with LF s = false ->
  truthy (re_match r (s ++ NL)) = truthy (re_match r s).
Proof.
  intros Hc Hav Hs.
  destruct (truthy (re_match r s)) eqn:H.
  - destruct (@re_match_matches _ _ H) as (m & post & Heq & Hm).
    pose proof (@closes_eol _ _ _ Hc _ _ _ Hm) as He.
    rewrite Heq in Hs.
    rewrite (at_eol_at_end _ (ends_with_app _ _ _ Hs)) in He.
    destruct post; [|discriminate].
    rewrite Heq, sapp_assoc. apply matches_re_match.
    apply (proj1 (matches_newline r 0 m "" Hs)). assumption.
  - destruct (truthy (re_match r (s ++ NL))) eqn:H'; [|reflexivity].
    destruct (@re_match_matches _ _ H') as (m & post & Heq & Hm).
    pose proof (@closes_eol _ _ _ Hc _ _ _ Hm) as He.
    pose proof (@avoids_has _ LF _ eq_refl Hav _ _ _ Hm) as Hno.
    destruct (at_eol_cases _ He) as [-> | ->].
    + rewrite sapp_nil_r in Heq. subst m.
      rewrite has_app in Hno. simpl in Hno.
      now rewrite orb_true_r in Hno.
    + apply sapp_inv_tail in Heq. subst m.
      assert (Hs' : ends_with LF (s ++ "") = false) by now rewrite sapp_nil_r.
      apply (proj2 (matches_newline r 0 s "" Hs')) in Hm.
      pose proof (matches_re_match _ _ _ Hm) as Ht.
      rewrite sapp_nil_r in Ht. congruence.
Qed.

Lemma re_match_inner_newline (r : regex) (s : text) :
  closes r = true -> avoids LF r = true ->
  re_match r (s ++ NL ++ NL) = None.
Proof.
  intros Hc Hav.
  destruct (re_match r (s ++ NL ++ NL)) as [k|] eqn:H; [|reflexivity].
  exfalso.
  assert (Ht : truthy (re_match r (s ++ NL ++ NL)) = true) by now rewrite H.
  destruct (@re_match_matches _ _ Ht) as (m & post & Heq & Hm).
  pose proof (@closes_eol _ _ _ Hc _ _ _ Hm) as He.
  pose proof (@avoids_has _ LF _ eq_refl Hav _ _ _ Hm) as Hno.
  destruct (at_eol_cases _ He) as [-> | ->].
  - rewrite sapp_nil_r in Heq. subst m.
    rewrite has_app in Hno. simpl in Hno. now rewrite orb_true_r in Hno.
  - rewrite <- sapp_assoc in Heq. apply sapp_inv_tail in Heq. subst m.
    rewrite has_app in Hno. simpl in Hno. now rewrite orb_true_r in Hno.
Qed.

(** X7: for a country of the registry, an identifier followed by one
    newline is accepted exactly when the identifier is; followed by two,
    it never is. *)
Theorem one_final_newline_is_ignored (c : text) (r : regex) (s : text) :
  lookup c Validator.vat_number_regexps = Some r ->
  ends_with LF s = false ->
  (exists m1 m2,
      Validator.validate (s ++ NL) c = Ok m1
      /\ Validator.validate s c = Ok m2
      /\ truthy m1 = truthy m2)
  /\ Validator.validate (s ++ NL ++ NL) c = Ok None.
Proof.
  intros Hr Hs.
  pose proof (@vat_number_regexps_close _ _ Hr) as Hc.
  pose proof (@registry_forall (fun _ r => avoids LF r) c r eq_refl Hr) as Hav.
  unfold Validator.validate. rewrite Hr. split.
  - exists (re_match r (s ++ NL)), (re_match r s).
    repeat split. now apply re_match_newline.
  - f_equal. now apply re_match_inner_newline.
Qed.

(** X8: the DK and FR patterns hold a space, which normalising takes
    away: no normalised identifier has the DK or the FR format. *)
Theorem spaced_rules_never_match_normalized (x c : text) :
  c = "DK" \/ c = "FR" ->
  Validator.validate (normalize x) c = Ok None.
Proof.
  intros Hc. unfold Validator.validate.
  destruct (lookup c Validator.vat_number_regexps) as [r|] eqn:Hr;
    [|destruct Hc as [-> | ->]; discriminate].
  assert (Hd : demands SP r = true)
    by (destruct Hc as [-> | ->]; vm_compute in Hr; injection Hr as <-;
        reflexivity).
  f_equal. destruct (re_match r (normalize x)) as [k|] eqn:H; [|reflexivity].
  exfalso.
  assert (Ht : truthy (re_match r (normalize x)) = true) by now rewrite H.
  destruct (@re_match_matches _ _ Ht) as (m & post & Heq & Hm).
  pose proof (@demands_has _ _ _ _ Hd _ _ _ Hm) as Hsp.
  pose proof (normalize_no_space x) as Hno.
  rewrite Heq, has_app, Hsp in Hno. discriminate.
Qed.

(** ** normalize, further *)








Lemma rstrip_cons (c a : char) (s : text) :
  N.eqb a c = false -> rstrip c (a :: s) = a :: rstrip c s.
Proof. intros H. simpl. rewrite H. now destruct (rstrip c s). Qed.

Lemma remove_char_all_lf (c : char) (s : text) :
  N.eqb LF c = false -> all_lf s = true -> remove_char c s = s.
Proof.
  intros Hc. induction s as [|a s IH]; simpl; [reflexivity|].
  intros H. apply andb_true_iff in H as [Ha Hs].
  apply N.eqb_eq in Ha. subst a. rewrite Hc. now rewrite IH.
Qed.

Lemma all_lf_cons_rstrip (a : char) (s : text) :
  N.eqb a LF = true -> all_lf s = true -> rstrip LF (a :: s) = "".
Proof. intros Ha Hs. simpl. now rewrite (rstrip_all_lf _ Hs), Ha. Qed.

(** On a line, taking a character other than the newline out commutes
    with stripping the newline. *)
Lemma rstrip_remove_char (c : char) (x : text) :
  N.eqb LF c = false -> lf_only_trailing x = true ->
  rstrip LF (remove_char c x) = remove_char c (rstrip LF x).
Proof.
  intros Hc. induction x as [|a x IH]; [reflexivity|].
  intros Hl. simpl in Hl.
  destruct (N.eqb a LF) eqn:Ha.
  - rewrite (all_lf_cons_rstrip _ _ Ha Hl).
    rewrite remove_char_all_lf; [|assumption|simpl; now rewrite Ha, Hl].
    now rewrite (all_lf_cons_rstrip _ _ Ha Hl).
  - rewrite (rstrip_cons _ _ _ Ha). simpl.
    destruct (N.eqb a c); [auto|].
    now rewrite (rstrip_cons _ _ _ Ha), IH.
Qed.

Lemma remove_char_comm (a b : char) (s : text) :
  remove_char a (remove_char b s) = remove_char b (remove_char a s).
Proof.
  induction s as [|x s IH]; simpl; [reflexivity|].
  destruct (N.eqb x b) eqn:Hb, (N.eqb x a) eqn:Ha; simpl;
    rewrite ?Ha, ?Hb, IH; reflexivity.
Qed.

Lemma remove_char_idem (c : char) (s : text) :
  remove_char c (remove_char c s) = remove_char c s.
Proof. apply remove_char_absent, has_remove_same. Qed.

Lemma remove_char_app (c : char) (s t : text) :
  remove_char c (s ++ t) = remove_char c s ++ remove_char c t.
Proof.
  induction s as [|a s IH]; simpl; [reflexivity|].
  destruct (N.eqb a c); simpl; now rewrite IH.
Qed.

Lemma rstrip_app (c : char) (s t : text) :
  rstrip c (s ++ t)
  = match rstrip c t with "" => rstrip c s | r => s ++ r end.
Proof.
  induction s as [|a s IH]; simpl.
  - now destruct (rstrip c t).
  - rewrite IH. destruct (rstrip c t) as [|b r]; [reflexivity|].
    now destruct (s ++ b :: r) eqn:H; [destruct s; discriminate|].
Qed.

(** The upper case of a code point other than [c], a line feed, a
    carriage return, a space or a star, holds no [c]. *)
Lemma uppercase_other (c a : char) :
  c = LF \/ c = CR \/ c = SP \/ c = STAR ->
  N.eqb a c = false -> has c (uppercase a) = false.
Proof.
  intros Hc Ha. apply has_false. intros Hin.
  apply N.eqb_neq in Ha. apply Ha. exact (uppercase_fresh _ _ Hin Hc).
Qed.

Lemma upper_not_empty (s : text) : s <> "" -> upper s <> "".
Proof.
  destruct s as [|a s]; [congruence|]. intros _ H. simpl in H.
  apply app_eq_nil in H as [H _]. exact (uppercase_not_empty _ H).
Qed.

Lemma rstrip_upper (s : text) : rstrip LF (upper s) = upper (rstrip LF s).
Proof.
  induction s as [|a s IH]; [reflexivity|].
  change (upper (a :: s)) with (uppercase a ++ upper s).
  rewrite rstrip_app, IH.
  assert (Hr : rstrip LF (a :: s)
               = match rstrip LF s with
                 | "" => if N.eqb a LF then "" else [a]
                 | r => a :: r
                 end) by reflexivity.
  rewrite Hr. clear Hr.
  destruct (rstrip LF s) as [|b r] eqn:Hs.
  - simpl. destruct (N.eqb a LF) eqn:Ha.
    + apply N.eqb_eq in Ha. subst a.
      now rewrite uppercase_self by auto.
    + simpl. rewrite app_nil_r. apply rstrip_absent.
      apply uppercase_other; auto.
  - change (upper (a :: b :: r)) with (uppercase a ++ upper (b :: r)).
    destruct (upper (b :: r)) eqn:Hu; [|reflexivity].
    exfalso. revert Hu. apply upper_not_empty. discriminate.
Qed.

Lemma remove_char_upper (c : char) (s : text) :
  c = LF \/ c = SP \/ c = STAR ->
  remove_char c (upper s) = upper (remove_char c s).
Proof.
  intros Hc.
  assert (Hc' : c = LF \/ c = CR \/ c = SP \/ c = STAR) by tauto.
  induction s as [|a s IH]; [reflexivity|].
  change (upper (a :: s)) with (uppercase a ++ upper s).
  rewrite remove_char_app, IH. simpl.
  destruct (N.eqb a c) eqn:Ha.
  - apply N.eqb_eq in Ha. subst a. rewrite (uppercase_self Hc').
    simpl. now rewrite N.eqb_refl.
  - now rewrite (remove_char_absent _ _ (@uppercase_other c a Hc' Ha)).
Qed.

(** X2: on a text whose newlines all stand at its end, as every line of
    the source file is, normalising ignores the case of the letters, the
    spaces and the stars: putting the line in upper case, or taking its
    spaces or its stars out first, gives the same identifier. *)
Theorem normalize_ignores_case_spaces_stars (x : text) :
  lf_only_trailing x = true ->
  normalize (upper x) = normalize x
  /\ normalize (remove_char SP x) = normalize x
  /\ normalize (remove_char STAR x) = normalize x.
Proof.
  intros Hl. unfold normalize. repeat split.
  - rewrite rstrip_upper, !remove_char_upper by auto. apply upper_idem.
  - rewrite rstrip_remove_char by auto. now rewrite remove_char_idem.
  - rewrite rstrip_remove_char by auto.
    rewrite (remove_char_comm SP STAR). now rewrite remove_char_idem.
Qed.

(** ** Normalising a valid identifier *)











(** ** The requests of a line *)

Lemma fmt_exclusive (s c1 c2 : text) :
  fmt s c1 = true -> fmt s c2 = true -> c1 = c2.
Proof.
  unfold fmt. intros H1 H2.
  destruct (Validator.validate s c1) as [m1|] eqn:V1; [|discriminate].
  destruct (Validator.validate s c2) as [m2|] eqn:V2; [|discriminate].
  destruct (@validate_truthy _ _ _ V1 H1) as (r1 & L1 & M1).
  destruct (@validate_truthy _ _ _ V2 H2) as (r2 & L2 & M2).
  destruct (@accepted_begins_with_code _ _ _ L1 M1) as [N1 P1].
  destruct (@accepted_begins_with_code _ _ _ L2 M2) as [N2 P2].
  eapply prefix_same_length; eauto. congruence.
Qed.

Section Traces.

Variable E : env.

(** A call that returns has sent its request; a call that sent nothing
    has raised. *)
Lemma vies_validation_trace (v c : text) (w : world) :
  let '(r, w') := vies_validation E v c w in
  written w' = written w /\ stdout w' = stdout w
  /\ ((net w' = net w /\ exists e, r = Raise e)
      \/ net w' = (net w ++ [Vies_request v c])%list).
Proof.
  unfold vies_validation, circuit, bind, state, clock, ret, raise,
    vies_request, call_succeeded, call_failed.
  destruct (stored_state (breaker w)); simpl;
    repeat match goal with
      | |- context [if ?b then _ else _] => destruct b; simpl
      | |- context [match vies_reply ?a ?b ?c ?d with _ => _ end] =>
          destruct (vies_reply a b c d); simpl
      end; eauto 6.
Qed.

Lemma process_line_sent (line : text) (w : world) :
  let w' := snd (process_line E line w) in
  stdout w' = (stdout w ++ [announce line])%list
  /\ exists sent, net w' = (net w ++ sent)%list
                  /\ line_requests (normalize line) sent.
Proof.
  cbv zeta. rewrite process_line_eq. cbv zeta.
  set (vat := normalize line).
  set (w0 := printed ("Processing " ++ vat) w).
  assert (Hs0 : stdout w0 = (stdout w ++ [announce line])%list) by reflexivity.
  assert (Hn0 : net w0 = net w) by reflexivity.
  unfold line_requests.
  destruct (fmt ("ES" ++ vat) "ES").
  - pose proof (vies_validation_trace ("ES" ++ vat) "ES" w0) as H1.
    destruct (vies_validation E ("ES" ++ vat) "ES" w0) as [[[|]|e] w1];
      destruct H1 as (_ & Hs1 & Hn1).
    + simpl. split; [congruence|].
      destruct Hn1 as [(_ & e & He) | Hn1]; [discriminate|].
      eexists. rewrite Hn1, Hn0. split; [reflexivity | auto].
    + destruct Hn1 as [(_ & e & He) | Hn1]; [discriminate|].
      rewrite axesor_validation_eq.
      destruct (http_reply E (length (net w1)) (axesor_url vat)) as [nm|st];
        [|destruct (st =? 200)%Z; [|destruct (st =? 302)%Z]];
        simpl; (split; [congruence|]);
        eexists; rewrite Hn1, Hn0, <- app_assoc; (split; [reflexivity|]);
        simpl; auto.
    + simpl. split; [congruence|].
      destruct Hn1 as [(Hn1 & _) | Hn1]; eexists; rewrite Hn1, Hn0.
      * rewrite app_nil_r at 1. split; [reflexivity | auto].
      * split; [reflexivity | auto].
  - destruct (fmt vat "GB") eqn:Hgb.
    + assert (Hde : fmt vat "DE" = false).
      { destruct (fmt vat "DE") eqn:Hde; [|reflexivity].
        pose proof (fmt_exclusive _ _ _ Hgb Hde). discriminate. }
      rewrite Hde.
      pose proof (vies_validation_trace vat "GB" w0) as H1.
      destruct (vies_validation E vat "GB" w0) as [[[|]|e] w1];
        destruct H1 as (_ & Hs1 & Hn1); simpl; (split; [congruence|]).
      * destruct Hn1 as [(_ & e & He) | Hn1]; [discriminate|].
        eexists. rewrite Hn1, Hn0. split; [reflexivity | auto 6].
      * destruct Hn1 as [(_ & e & He) | Hn1]; [discriminate|].
        eexists. rewrite Hn1, Hn0. split; [reflexivity | auto 6].
      * destruct Hn1 as [(Hn1 & _) | Hn1]; eexists; rewrite Hn1, Hn0.
        -- rewrite app_nil_r at 1. split; [reflexivity | auto].
        -- split; [reflexivity | auto 6].
    + destruct (fmt vat "DE") eqn:Hde.
      * pose proof (vies_validation_trace vat "DE" w0) as H1.
        destruct (vies_validation E vat "DE" w0) as [[[|]|e] w1];
          destruct H1 as (_ & Hs1 & Hn1); simpl; (split; [congruence|]).
        -- destruct Hn1 as [(_ & e & He) | Hn1]; [discriminate|].
           eexists. rewrite Hn1, Hn0. split; [reflexivity | auto 6].
        -- destruct Hn1 as [(_ & e & He) | Hn1]; [discriminate|].
           eexists. rewrite Hn1, Hn0. split; [reflexivity | auto 6].
        -- destruct Hn1 as [(Hn1 & _) | Hn1]; eexists; rewrite Hn1, Hn0.
           ++ rewrite app_nil_r at 1. split; [reflexivity | auto].
           ++ split; [reflexivity | auto 6].
      * simpl. split; [assumption|]. exists []. rewrite app_nil_r. auto.
Qed.

End Traces.

Lemma line_requests_count (vat : text) (sent : list event) :
  line_requests vat sent ->
  length (filter is_vies sent) <= 1
  /\ length (filter is_get sent) <= 1.
Proof.
  intros [-> | [-> | [-> | [-> | ->]]]]; simpl; lia.
Qed.

(** X9: a line sends at most one VIES request and at most one axesor
    request, whatever the state of the breaker: nothing, one VIES request
    (for ES, GB or DE), or the ES request followed by the axesor one. *)
Theorem line_sends_at_most_two (E : env) (line : text) (w : world) :
  let w' := snd (process_line E line w) in
  exists sent,
    net w' = (net w ++ sent)%list
    /\ line_requests (normalize line) sent
    /\ length (filter is_vies sent) <= 1
    /\ length (filter is_get sent) <= 1.
Proof.
  cbv zeta.
  destruct (process_line_sent E line w) as (_ & sent & Hn & Hs).
  exists sent. split; [assumption|]. split; [assumption|].
  now apply line_requests_count with (vat := normalize line).
Qed.

(** ** Accounts of a batch *)




(** ** A line with the circuit closed *)

Lemma reset_pristine (w : world) :
  pristine w -> breaker (reset w) = breaker w.
Proof.
  unfold pristine, reset. destruct w as [[st fc op lf] t n o wr]. simpl.
  intros (-> & -> & ->). reflexivity.
Qed.

Ltac fin :=
  repeat split; rewrite ?app_nil_r, <- ?app_assoc; auto;
  try (let Hp := fresh in intros Hp; exact (reset_pristine Hp)).

Lemma process_line_closed (E : env) (line : text) (w : world) :
  closed w ->
  let '(r, w') := process_line E line w in
  let '(r0, sent, rows) :=
    line_result E (normalize line) (length (net w)) in
  r = r0
  /\ net w' = (net w ++ sent)%list
  /\ written w' = (written w ++ rows)%list
  /\ ticks w' = ticks w
  /\ closed w'
  /\ (pristine w -> breaker w' = breaker w).
Proof.
  intros Hc. rewrite process_line_eq. cbv zeta. unfold line_result.
  set (vat := normalize line).
  set (w0 := printed ("Processing " ++ vat) w).
  assert (Hc0 : closed w0) by exact Hc.
  destruct (fmt ("ES" ++ vat) "ES").
  - rewrite (vies_validation_closed E ("ES" ++ vat) "ES" Hc0).
    change (net w0) with (net w).
    destruct (vies_reply E (length (net w)) ("ES" ++ vat) "ES")
      as [name|[|]]; simpl.
    + fin.
    + fin.
    + rewrite axesor_validation_eq. simpl. rewrite length_app. simpl.
      rewrite Nat.add_1_r.
      destruct (http_reply E (S (length (net w))) (axesor_url vat))
        as [name|st];
        [|destruct (st =? 200)%Z; [|destruct (st =? 302)%Z]];
        simpl; rewrite <- ?app_assoc; fin.
  - destruct (fmt vat "GB") eqn:Hgb.
    + assert (Hde : fmt vat "DE" = false).
      { destruct (fmt vat "DE") eqn:Hde; [|reflexivity].
        pose proof (fmt_exclusive _ _ _ Hgb Hde). discriminate. }
      rewrite Hde, (vies_validation_closed E vat "GB" Hc0).
      change (net w0) with (net w).
      destruct (vies_reply E (length (net w)) vat "GB") as [name|[|]];
        simpl; fin.
    + destruct (fmt vat "DE") eqn:Hde.
      * rewrite (vies_validation_closed E vat "DE" Hc0).
        change (net w0) with (net w).
        destruct (vies_reply E (length (net w)) vat "DE") as [name|[|]];
          simpl; fin.
      * simpl. fin.
Qed.

(** X11: with the circuit closed, what a line leads to (its result, the
    requests sent, the record written) depends on the line and on the
    number of requests sent before (which picks the replies), not on
    what earlier lines wrote or printed: nothing is cached. *)
Theorem line_outcome_independent_of_history (E : env) (line : text)
    (w1 w2 : world) :
  closed w1 -> closed w2 ->
  length (net w1) = length (net w2) ->
  let '(r1, w1') := process_line E line w1 in
  let '(r2, w2') := process_line E line w2 in
  r1 = r2
  /\ exists sent rows,
       net w1' = (net w1 ++ sent)%list /\ net w2' = (net w2 ++ sent)%list
       /\ written w1' = (written w1 ++ rows)%list
       /\ written w2' = (written w2 ++ rows)%list.
Proof.
  intros H1 H2 Hn.
  pose proof (process_line_closed E line H1) as P1.
  pose proof (process_line_closed E line H2) as P2.
  rewrite <- Hn in P2.
  destruct (process_line E line w1) as [r1 w1'].
  destruct (process_line E line w2) as [r2 w2'].
  destruct (line_result E (normalize line) (length (net w1)))
    as [[r0 sent] rows].
  destruct P1 as (-> & N1 & W1 & _), P2 as (-> & N2 & W2 & _).
  split; [reflexivity|]. exists sent, rows. auto.
Qed.

Lemma for_each_pristine (E : env) (lines : list text) (w : world) :
  pristine w ->
  let w' := snd (for_each (process_line E) lines w) in
  breaker w' = breaker w /\ ticks w' = ticks w.
Proof.
  revert w. induction lines as [|line lines IH]; intros w Hp; simpl; [auto|].
  unfold bind.
  pose proof (@process_line_closed E line w (proj1 Hp)) as P.
  destruct (process_line E line w) as [r w1].
  destruct (line_result E (normalize line) (length (net w)))
    as [[r0 sent] rows].
  destruct P as (_ & _ & _ & Ht & _ & Hb). specialize (Hb Hp).
  destruct r as [[]|e]; simpl; [|auto].
  assert (Hp1 : pristine w1) by (unfold pristine; rewrite Hb; exact Hp).
  destruct (IH w1 Hp1) as [Hb2 Ht2]. split; congruence.
Qed.

(** X12: a run of the program leaves the breaker as it was built,
    closed with no failure counted, and never reads its clock, whatever
    the services reply. *)
Theorem batch_leaves_breaker_untouched (E : env) (source : source_file)
    (output : output_file) :
  let w' := snd (locate_vax_number E source output (start E)) in
  breaker w' = breaker (start E)
  /\ stored_state (breaker w') = STATE_CLOSED
  /\ failure_count (breaker w') = 0
  /\ ticks w' = ticks (start E).
Proof.
  cbv zeta.
  destruct source as [name|name|content], output as [name'|];
    try (simpl; repeat split; reflexivity).
  unfold locate_vax_number.
  assert (Hp : pristine (truncated (start E))) by (repeat split).
  destruct (for_each_pristine E (readlines content) Hp) as [Hb Ht].
  cbv zeta in Hb, Ht. rewrite Hb, Ht. repeat split.
Qed.

(** ** Reading the output back *)

Lemma has_cons (c a : char) (s : text) :
  has c (a :: s) = N.eqb a c || has c s.
Proof. reflexivity. Qed.

Lemma universal_newlines_no_cr (s : text) :
  has CR (universal_newlines s) = false.
Proof.
  assert (H : forall n s, length s <= n ->
                          has CR (universal_newlines s) = false).
  { induction n as [|n IH]; intros [|a t] Hl;
      try reflexivity; try (simpl in Hl; lia).
    cbn [universal_newlines]. simpl in Hl.
    destruct (N.eqb a CR) eqn:Ha.
    - destruct t as [|b t']; [reflexivity|]. simpl in Hl.
      destruct (N.eqb b LF); rewrite has_cons;
        change (N.eqb LF CR) with false; rewrite orb_false_l;
        apply IH; simpl; lia.
    - rewrite has_cons, Ha, orb_false_l. apply IH. lia. }
  apply (H (length s)). lia.
Qed.

Lemma universal_newlines_id (s : text) :
  has CR s = false -> universal_newlines s = s.
Proof.
  induction s as [|a s IH]; simpl; [reflexivity|].
  intros H. apply orb_false_iff in H as [Ha Hs].
  rewrite Ha. now rewrite IH.
Qed.

Lemma split_lines_no_cr (s cur : text) :
  has CR cur = false -> has CR s = false ->
  Forall (fun l => has CR l = false) (split_lines cur s).
Proof.
  revert cur. induction s as [|a s IH]; intros cur Hcur Hs; simpl.
  - destruct cur; constructor; [assumption | constructor].
  - simpl in Hs. apply orb_false_iff in Hs as [Ha Hs].
    destruct (N.eqb a LF).
    + constructor; [|now apply IH].
      rewrite has_app, Hcur. reflexivity.
    + apply IH; [|assumption]. rewrite has_app, Hcur. simpl. now rewrite Ha.
Qed.

Lemma readlines_no_cr (content line : text) :
  In line (readlines content) -> has CR line = false.
Proof.
  intros H. unfold readlines in H.
  pose proof (@split_lines_no_cr (universal_newlines content) "" eq_refl
                (universal_newlines_no_cr content)) as Hall.
  rewrite Forall_forall in Hall. auto.
Qed.

Lemma has_rstrip (c c' : char) (s : text) :
  has c s = false -> has c (rstrip c' s) = false.
Proof.
  induction s as [|a s IH]; simpl; [reflexivity|].
  intros H. apply orb_false_iff in H as [Ha Hs]. specialize (IH Hs).
  destruct (rstrip c' s); [destruct (N.eqb a c')|]; simpl in *;
    rewrite ?Ha; auto.
Qed.

Lemma normalize_no_cr (x : text) :
  has CR x = false -> has CR (normalize x) = false.
Proof.
  intros H. unfold normalize. rewrite has_upper_plain by auto.
  now apply has_remove_other, has_remove_other, has_rstrip.
Qed.

Lemma record_whole_line (content line row : text) :
  In line (readlines content) -> record_for line row -> whole_line row.
Proof.
  intros Hin (country & err & Hc & ->).
  pose proof (normalize_no_newline _ (readlines_lf_only _ _ Hin)) as Hlf.
  pose proof (normalize_no_cr _ (readlines_no_cr _ _ Hin)) as Hcr.
  exists (normalize line ++ "," ++ country ++ "," ++ err).
  rewrite !has_app, Hlf, Hcr.
  unfold classifications in Hc. simpl in Hc.
  repeat (destruct Hc as [[= <- <-] | Hc];
          [repeat split; rewrite ?sapp_assoc; reflexivity|]).
  contradiction.
Qed.

Lemma split_lines_whole (body rest cur : text) :
  has LF body = false ->
  split_lines cur (body ++ NL ++ rest)
  = (cur ++ body ++ NL) :: split_lines "" rest.
Proof.
  revert cur. induction body as [|a body IH]; intros cur H; simpl.
  - reflexivity.
  - simpl in H. apply orb_false_iff in H as [Ha Hb]. rewrite Ha.
    rewrite (IH _ Hb), sapp_assoc. reflexivity.
Qed.

Lemma contents_no_cr (rows : list text) :
  Forall whole_line rows -> has CR (contents rows) = false.
Proof.
  induction 1 as [|row rows (body & -> & _ & Hcr) _ IH]; simpl;
    [reflexivity|].
  now rewrite !has_app, Hcr, IH.
Qed.

Lemma readlines_contents (rows : list text) :
  Forall whole_line rows -> readlines (contents rows) = rows.
Proof.
  intros Hall. unfold readlines.
  rewrite (universal_newlines_id _ (contents_no_cr Hall)).
  induction Hall as [|row rows (body & -> & Hlf & _) _ IH]; simpl;
    [reflexivity|].
  rewrite sapp_assoc, (split_lines_whole _ _ _ Hlf), IH. reflexivity.
Qed.

Lemma for_each_rows (E : env) (lines : list text) (w : world) :
  exists rows,
    written (snd (for_each (process_line E) lines w))
    = (written w ++ rows)%list
    /\ Forall (fun row => exists line, In line lines /\ record_for line row)
         rows.
Proof.
  revert w. induction lines as [|line lines IH]; intros w; simpl.
  - exists []. rewrite app_nil_r. split; [reflexivity | constructor].
  - unfold bind.
    pose proof (process_line_outcome E line w) as Hout. cbv zeta in Hout.
    destruct (process_line E line w) as [[[]|e] w1];
      destruct Hout as (Hout & _).
    + destruct Hout as (country & err & Hw1 & Hcl).
      destruct (IH w1) as (rows & Hw2 & Hrows).
      eexists (_ :: rows). rewrite Hw2, Hw1, <- app_assoc. simpl.
      split; [reflexivity|]. constructor.
      * exists line. split; [now left | now apply classified_record].
      * eapply Forall_impl; [|exact Hrows].
        intros row (l & Hl & Hr). exists l. split; [now right | assumption].
    + destruct Hout as (Hw1 & _). exists []. simpl. rewrite app_nil_r.
      split; [assumption | constructor].
Qed.

(** X13: every record written is one whole line (no newline or carriage
    return inside), so the output file read back with [readlines] gives
    exactly the records written, one per line; when the source or the
    output cannot be opened, the output is left as it was. *)
Theorem output_reads_back (E : env) (source : source_file)
    (output : output_file) (w : world) :
  let w' := snd (locate_vax_number E source output w) in
  match source, output with
  | Unreadable _, _ | _, Unwritable _ => written w' = written w
  | _, Writable =>
      Forall whole_line (written w')
      /\ readlines (contents (written w')) = written w'
  end.
Proof.
  cbv zeta.
  destruct source as [name|name|content], output as [name'|];
    try reflexivity; [split; [constructor | reflexivity]|].
  unfold locate_vax_number.
  destruct (for_each_rows E (readlines content) (truncated w))
    as (rows & Hw & Hrows).
  simpl in Hw. rewrite Hw.
  assert (Hall : Forall whole_line rows).
  { eapply Forall_impl; [|exact Hrows].
    intros row (line & Hin & Hr). eapply record_whole_line; eassumption. }
  split; [assumption | now apply readlines_contents].
Qed.

(** ** The paths given to main *)

Lemma up_to_last_absent (c : char) (p : text) :
  has c p = false -> up_to_last c p = "".
Proof.
  induction p as [|a p IH]; simpl; [reflexivity|].
  intros H. apply orb_false_iff in H as [Ha Hp]. now rewrite Hp, Ha.
Qed.

Lemma up_to_last_app (c : char) (d f : text) :
  has c f = false ->
  up_to_last c (d ++ (c :: f)) = d ++ [c].
Proof.
  intros Hf. induction d as [|a d IH]; simpl.
  - now rewrite Hf, N.eqb_refl.
  - rewrite has_app. simpl. rewrite N.eqb_refl, orb_true_r.
    now rewrite IH.
Qed.

Lemma all_char_ends_with (c : char) (d x : text) :
  d <> "" -> ends_with c d = false -> all_char c (d ++ x) = false.
Proof.
  induction d as [|a d IH]; [congruence|]. intros _ He. simpl in *.
  destruct d as [|b d].
  - now rewrite He.
  - rewrite IH; [apply andb_false_r | discriminate | assumption].
Qed.

Lemma rstrip_step (c a : char) (s : text) :
  rstrip c (a :: s)
  = match rstrip c s with
    | "" => if N.eqb a c then "" else [a]
    | b :: r => (a :: (b :: r))
    end.
Proof. reflexivity. Qed.

Lemma rstrip_app_one (c : char) (d : text) :
  d <> "" -> ends_with c d = false -> rstrip c (d ++ [c]) = d.
Proof.
  induction d as [|a d IH]; [congruence|]. intros _ He.
  destruct d as [|b d].
  - simpl in *. now rewrite N.eqb_refl, He.
  - change ((a :: (b :: d)) ++ [c])
      with (a :: ((b :: d) ++ [c])).
    rewrite rstrip_step, IH; [reflexivity | discriminate | exact He].
Qed.

Lemma dirname_bare (p : text) : has SLASH p = false -> dirname p = "".
Proof. intros H. unfold dirname. now rewrite (up_to_last_absent _ _ H). Qed.

Lemma dirname_join (d f : text) :
  d <> "" -> ends_with SLASH d = false -> has SLASH f = false ->
  dirname (d ++ (SLASH :: f)) = d.
Proof.
  intros Hd He Hf. unfold dirname.
  rewrite (up_to_last_app _ d _ Hf).
  rewrite (@all_char_ends_with _ _ _ Hd He).
  assert (Hne : text_eqb (d ++ [SLASH]) "" = false)
    by (destruct d; [congruence | reflexivity]).
  rewrite Hne. simpl. now apply rstrip_app_one.
Qed.

(** X14: [dir_path] rejects every path without a slash, a bare file
    name, with the message [/ is not a valid path]: its directory part
    is the empty text, which is no directory. *)
Theorem dir_path_bare_name (isdir : text -> bool) (file : text) :
  isdir "" = false ->
  has SLASH file = false ->
  dir_path isdir file = ArgumentTypeError "/ is not a valid path".
Proof.
  intros Hroot Hf. unfold dir_path. cbv zeta.
  rewrite (dirname_bare _ Hf), Hroot. reflexivity.
Qed.

(** X15: for a path [d/f], with [f] free of slashes and [d] not ending
    with one, [dir_path] returns the path unchanged when [d] is a
    directory and raises [ArgumentTypeError] naming [d/] otherwise; [f]
    itself is not looked at (it may be empty). *)
Theorem dir_path_checks_parent (isdir : text -> bool) (d f : text) :
  d <> "" -> ends_with SLASH d = false -> has SLASH f = false ->
  dir_path isdir (d ++ (SLASH :: f))
  = if isdir d then Value (d ++ (SLASH :: f))
    else ArgumentTypeError (d ++ "/ is not a valid path").
Proof.
  intros Hd He Hf. unfold dir_path. cbv zeta.
  rewrite (@dirname_join _ _ Hd He Hf). reflexivity.
Qed.

(** ** The whole batch *)






End Further.

(** ** Instances of the further properties *)

Section Further_examples.

Local Existing Instance plain.


Lemma accepted_starts_with_code_witness :
  Validator.validate "GBGD123" "GB" = Ok (Some 7)
  /\ length "GB" = 2 /\ prefix "GB" "GBGD123" = true.
Proof.
  split; [reflexivity|].
  exact (@accepted_starts_with_code plain "GBGD123" "GB" (Some 7) eq_refl eq_refl).
Defined.

Lemma one_country_at_most_witness :
  Validator.validate "DE123456789" "DE" = Ok (Some 11)
  /\ truthy (Some 11) = true
  /\ "DE" = "DE".
Proof.
  split; [reflexivity|]. split; [reflexivity|].
  exact (@one_country_at_most plain "DE123456789" "DE" "DE" (Some 11) (Some 11)
           eq_refl eq_refl eq_refl eq_refl).
Defined.

Lemma accepted_length_bounds_witness :
  Validator.validate "RO12" "RO" = Ok (Some 4)
  /\ 4 <= length "RO12" <= 18
  /\ exists r, lookup "RO" Validator.vat_number_regexps = Some r
               /\ minlen r <= length "RO12" <= maxlen r + 1.
Proof.
  split; [reflexivity|].
  exact (@accepted_length_bounds plain "RO12" "RO" (Some 4) eq_refl eq_refl).
Defined.

Lemma one_final_newline_is_ignored_witness :
  exists r,
    lookup "DE" Validator.vat_number_regexps = Some r
    /\ ends_with LF "DE123456789" = false
    /\ (exists m1 m2,
           Validator.validate ("DE123456789" ++ NL) "DE" = Ok m1
           /\ Validator.validate "DE123456789" "DE" = Ok m2
           /\ truthy m1 = truthy m2)
    /\ Validator.validate ("DE123456789" ++ NL ++ NL) "DE" = Ok None.
Proof.
  eexists. split; [reflexivity|]. split; [reflexivity|].
  exact (@one_final_newline_is_ignored plain "DE" _ "DE123456789" eq_refl eq_refl).
Defined.

Lemma spaced_rules_never_match_normalized_witness :
  ("DK" = "DK" \/ "DK" = "FR")
  /\ Validator.validate "DK12 34 56 78" "DK" = Ok (Some 13)
  /\ Validator.validate (normalize "DK12 34 56 78") "DK" = Ok None.
Proof.
  split; [now left|]. split; [reflexivity|].
  exact (@spaced_rules_never_match_normalized plain "DK12 34 56 78" "DK"
           (or_introl eq_refl)).
Defined.

Lemma normalize_ignores_case_spaces_stars_witness :
  let x := "es b12*34 5678" ++ NL in
  lf_only_trailing x = true
  /\ normalize (upper x) = normalize x
  /\ normalize (remove_char SP x) = normalize x
  /\ normalize (remove_char STAR x) = normalize x.
Proof.
  split; [reflexivity|].
  exact (@normalize_ignores_case_spaces_stars plain ("es b12*34 5678" ++ NL) eq_refl).
Defined.


Lemma line_outcome_independent_of_history_witness :
  let E := env_of (inr false) (inr 302%Z) in
  let w1 := start E in
  let w2 := wrote ("X,,Not Found" ++ NL) (printed "Processing X" w1) in
  closed w1 /\ closed w2
  /\ length (net w1) = length (net w2)
  /\ let '(r1, w1') := process_line E ("B12345678" ++ NL) w1 in
     let '(r2, w2') := process_line E ("B12345678" ++ NL) w2 in
     r1 = r2
     /\ exists sent rows,
          net w1' = (net w1 ++ sent)%list /\ net w2' = (net w2 ++ sent)%list
          /\ written w1' = (written w1 ++ rows)%list
          /\ written w2' = (written w2 ++ rows)%list.
Proof.
  split; [reflexivity|]. split; [reflexivity|]. split; [reflexivity|].
  exact (@line_outcome_independent_of_history plain
           (env_of (inr false) (inr 302%Z)) ("B12345678" ++ NL)
           (start (env_of (inr false) (inr 302%Z)))
           (wrote ("X,,Not Found" ++ NL)
              (printed "Processing X" (start (env_of (inr false) (inr 302%Z)))))
           eq_refl eq_refl eq_refl).
Defined.

Lemma dir_path_bare_name_witness :
  only_tmp "" = false
  /\ has SLASH "out.csv" = false
  /\ dir_path only_tmp "out.csv" = ArgumentTypeError "/ is not a valid path".
Proof.
  split; [reflexivity|]. split; [reflexivity|].
  exact (@dir_path_bare_name only_tmp "out.csv" eq_refl eq_refl).
Defined.

Lemma dir_path_checks_parent_witness :
  "/tmp" <> "" /\ ends_with SLASH "/tmp" = false
  /\ has SLASH "out.csv" = false
  /\ dir_path only_tmp "/tmp/out.csv" = Value "/tmp/out.csv"
  /\ dir_path only_tmp "/tmp/" = Value "/tmp/".
Proof.
  assert (Hd : "/tmp" <> "") by discriminate.
  split; [exact Hd|]. split; [reflexivity|]. split; [reflexivity|].
  split.
  - exact (@dir_path_checks_parent only_tmp "/tmp" "out.csv" Hd eq_refl eq_refl).
  - exact (@dir_path_checks_parent only_tmp "/tmp" "" Hd eq_refl eq_refl).
Defined.

End Further_examples.
